(** * Relay bot: binding store and routing resolver

    A shallow embedding of [storage.py] (the SQLite-backed project
    repository) and of [main.py] (the command handlers and the message
    relay), followed by the properties of the binding state machine and of
    the routing resolver.

    Modelling conventions.
    - The [projects] table is the list of its rows in rowid order.  The
      code never deletes a row, so rowid order is insertion order, and a
      [SELECT] without [ORDER BY] that has to scan the table (the lookup by
      chat identifier has no index to use) yields rows in that order.
    - A nullable [INTEGER] column is an [option Z]; chat identifiers are
      the integers Telegram hands out, all within SQLite's 64-bit range.
    - Text is a [string] of UTF-8 bytes; [TEXT] comparison under the default
      [BINARY] collation is byte equality.
    - Python exceptions are values of [exn]; a call that can raise returns a
      [result]. *)

From Stdlib Require Import String Ascii ZArith List Bool Lia DecimalString
  Permutation Sorted.
Import ListNotations.

Local Open Scope string_scope.
Local Open Scope Z_scope.

(** ** Exceptions and results *)

Inductive exn : Type :=
| ValueError (msg : string)
| AttributeError
| TelegramError.

Inductive result (A : Type) : Type :=
| Ok (a : A)
| Raise (e : exn).

Arguments Ok {A} a.
Arguments Raise {A} e.

(** ** storage.py *)

Record Project : Type := mkProject {
  slug : string;
  customer_chat_id : option Z;
  executor_chat_id : option Z;
  is_active : bool
}.

(** One row of [projects]: [slug TEXT PRIMARY KEY], two nullable [INTEGER]
    chat columns and [is_active INTEGER]. *)
Record Row : Type := mkRow {
  row_slug : string;
  row_customer : option Z;
  row_executor : option Z;
  row_active : Z
}.

Definition Table : Type := list Row.

(** Attribute assignment on a [Project] object. *)
Definition set_customer_chat_id (p : Project) (v : option Z) : Project :=
  mkProject (slug p) v (executor_chat_id p) (is_active p).

Definition set_executor_chat_id (p : Project) (v : option Z) : Project :=
  mkProject (slug p) (customer_chat_id p) v (is_active p).

Definition set_is_active (p : Project) (v : bool) : Project :=
  mkProject (slug p) (customer_chat_id p) (executor_chat_id p) v.

(** [_init_db] on a fresh file: the empty table. *)
Definition init_db : Table := [].

(** The primary key constraint: no two rows share a slug. *)
Definition wf_table (db : Table) : Prop := NoDup (map row_slug db).

(** SQL [column = ?] on a nullable integer column: [NULL = v] is not true. *)
Definition sql_eq (col : option Z) (v : Z) : bool :=
  match col with
  | Some c => c =? v
  | None => false
  end.

(** Python [v == field] for an [Optional[int]] field: [v == None] is
    [False]. *)
Definition py_eq (v : Z) (field : option Z) : bool :=
  match field with
  | Some c => v =? c
  | None => false
  end.

(** [SELECT ... FROM projects WHERE cond], rows in scan order. *)
Definition select (cond : Row -> bool) (db : Table) : list Row :=
  filter cond db.

(** [cur.fetchone()]. *)
Definition fetchone (rows : list Row) : option Row :=
  match rows with
  | [] => None
  | r :: _ => Some r
  end.

(** [UPDATE projects SET ... WHERE slug = ?]. *)
Definition update_where_slug (s : string) (set : Row -> Row) (db : Table)
  : Table :=
  map (fun r => if String.eqb (row_slug r) s then set r else r) db.

(** Python [bool(n)] on an integer. *)
Definition py_bool (n : Z) : bool := negb (n =? 0).

Definition _row_to_project (row : Row) : Project :=
  {| slug := row_slug row;
     customer_chat_id := row_customer row;
     executor_chat_id := row_executor row;
     is_active := py_bool (row_active row) |}.

Definition DuplicateSlug : exn := ValueError "Project already exists".
Definition ProjectNotFound : exn := ValueError "Project not found".

Definition create_project (db : Table) (slug : string) (executor_chat_id : Z)
  : result Project * Table :=
  match fetchone (select (fun r => String.eqb (row_slug r) slug) db) with
  | Some _ => (Raise DuplicateSlug, db)
  | None =>
      (Ok (mkProject slug None (Some executor_chat_id) true),
       (db ++ [mkRow slug None (Some executor_chat_id) 1])%list)
  end.

Definition find_by_slug (db : Table) (slug : string) : option Project :=
  match fetchone (select (fun r => String.eqb (row_slug r) slug) db) with
  | Some row => Some (_row_to_project row)
  | None => None
  end.

Definition bind_customer_chat (db : Table) (slug : string) (chat_id : Z)
  : result Project * Table :=
  match find_by_slug db slug with
  | None => (Raise ProjectNotFound, db)
  | Some project =>
      let db' :=
        update_where_slug slug
          (fun r => mkRow (row_slug r) (Some chat_id) (row_executor r) 1) db in
      (Ok (set_is_active (set_customer_chat_id project (Some chat_id)) true),
       db')
  end.

Definition find_by_chat_id (db : Table) (chat_id : Z)
  : option (Project * string) :=
  match fetchone
          (select (fun r => sql_eq (row_customer r) chat_id
                            || sql_eq (row_executor r) chat_id) db) with
  | None => None
  | Some row =>
      let project := _row_to_project row in
      let role :=
        if py_eq chat_id (customer_chat_id project) then "customer"
        else "executor" in
      Some (project, role)
  end.

(** [ORDER BY slug]: insertion sort on the byte order of the slugs. *)
Fixpoint insert_by_slug (r : Row) (rows : list Row) : list Row :=
  match rows with
  | [] => [r]
  | r' :: rest =>
      if String.leb (row_slug r) (row_slug r') then r :: rows
      else r' :: insert_by_slug r rest
  end.

Definition order_by_slug (rows : list Row) : list Row :=
  fold_right insert_by_slug [] rows.

Definition list_projects (db : Table) : list Project :=
  map _row_to_project (order_by_slug (select (fun _ => true) db)).

Definition unlink_chat (db : Table) (slug : string) (chat_id : Z)
  : result Project * Table :=
  match find_by_slug db slug with
  | None => (Raise ProjectNotFound, db)
  | Some project =>
      let new_customer := customer_chat_id project in
      let new_executor := executor_chat_id project in
      let new_customer :=
        if py_eq chat_id (customer_chat_id project) then None
        else new_customer in
      let new_executor :=
        if py_eq chat_id (executor_chat_id project) then None
        else new_executor in
      let db' :=
        update_where_slug slug
          (fun r => mkRow (row_slug r) new_customer new_executor 0) db in
      (Ok (set_is_active
             (set_executor_chat_id
                (set_customer_chat_id project new_customer) new_executor)
             false),
       db')
  end.

(** ** config.py *)

Record Config : Type := mkConfig {
  bot_token : string;
  admin_user_id : Z;
  db_path : string
}.

(** ** main.py: Telegram objects *)

Record User : Type := mkUser {
  user_id : Z;
  is_bot : bool
}.

(** The fields of a [telegram.Message] the bot reads.  A media attachment is
    represented by its [file_id]; [photo] is the tuple of available sizes,
    empty when the message carries no photo. *)
Record Message : Type := mkMessage {
  chat_id : Z;
  from_user : option User;
  text : option string;
  caption : option string;
  document : option string;
  photo : list string;
  voice : option string;
  audio : option string;
  video : option string
}.

Record Update : Type := mkUpdate {
  effective_user : option User;
  effective_chat : option Z;
  effective_message : option Message
}.

(** What a handler does to the outside world, in order: calls on the
    repository, calls on the Telegram API (a reply goes to the chat of the
    message replied to), and log records. *)
Inductive Call : Type :=
| repo_create_project (slug : string) (chat : Z)
| repo_bind_customer_chat (slug : string) (chat : Z)
| repo_find_by_chat_id (chat : Z)
| repo_list_projects
| repo_unlink_chat (slug : string) (chat : Z)
| reply_text (chat : Z) (body : string)
| send_message (chat : Z) (body : string)
| send_document (chat : Z) (file_id : string) (cap : string)
| send_photo (chat : Z) (file_id : string) (cap : string)
| send_voice (chat : Z) (file_id : string) (cap : string)
| send_audio (chat : Z) (file_id : string) (cap : string)
| send_video (chat : Z) (file_id : string) (cap : string)
| logger_exception (slug : string).

(** ** The handler monad

    A handler runs against the table and the history of calls made so far;
    it returns a value or raises. *)

Record World : Type := mkWorld {
  table : Table;
  history : list Call
}.

Definition Handler (A : Type) : Type := World -> result A * World.

Definition ret {A} (a : A) : Handler A := fun w => (Ok a, w).

Definition raise {A} (e : exn) : Handler A := fun w => (Raise e, w).

Definition bind {A B} (m : Handler A) (k : A -> Handler B) : Handler B :=
  fun w =>
    match m w with
    | (Ok a, w') => k a w'
    | (Raise e, w') => (Raise e, w')
    end.

(** [try: body  except exc_type as exc: handler]. *)
Definition try_except {A} (body : Handler A) (catches : exn -> bool)
  (handler : exn -> Handler A) : Handler A :=
  fun w =>
    match body w with
    | (Ok a, w') => (Ok a, w')
    | (Raise e, w') => if catches e then handler e w' else (Raise e, w')
    end.

Definition record (c : Call) : Handler unit :=
  fun w => (Ok tt, mkWorld (table w) (history w ++ [c])%list).

(** A repository method: recorded in the history, run against the table. *)
Definition on_repo {A} (c : Call) (op : Table -> result A * Table)
  : Handler A :=
  fun w =>
    let (r, db') := op (table w) in
    (r, mkWorld db' (history w ++ [c])%list).

Declare Scope handler_scope.
Delimit Scope handler_scope with handler.
Notation "x <- m ;; k" := (bind m (fun x => k))
  (at level 61, m at next level, right associativity) : handler_scope.
Notation "m ;; k" := (bind m (fun _ => k))
  (at level 61, right associativity) : handler_scope.
Local Open Scope handler_scope.

Definition is_ValueError (e : exn) : bool :=
  match e with ValueError _ => true | _ => false end.

Definition is_TelegramError (e : exn) : bool :=
  match e with TelegramError => true | _ => false end.

(** [str(exc)]. *)
Definition str_exn (e : exn) : string :=
  match e with
  | ValueError msg => msg
  | AttributeError => "AttributeError"
  | TelegramError => "TelegramError"
  end.

(** Python [str(n)] for an integer. *)
Definition str_int (n : Z) : string := NilZero.string_of_int (Z.to_int n).

(** Truthiness of a [str]: non-empty. *)
Definition nonempty (s : string) : bool :=
  match s with EmptyString => false | String _ _ => true end.

(** [if s:] on an [Optional[str]]: the string, when there is one to use. *)
Definition if_str (s : option string) : option string :=
  match s with
  | Some c => if nonempty c then Some c else None
  | None => None
  end.

Definition LF : string := String (ascii_of_nat 10) EmptyString.

(** ** main.py: handlers *)

Section Handlers.

(** [project.slug], for the handlers that also hold a local [slug]. *)
Definition project_slug (project : Project) : string := slug project.

(** The Telegram API is an external collaborator: whether a call raises
    [TelegramError] may depend on the call and on everything done before. *)
Variable telegram_raises : list Call -> Call -> bool.

Definition api (c : Call) : Handler unit :=
  fun w =>
    let w' := mkWorld (table w) (history w ++ [c])%list in
    if telegram_raises (history w) c then (Raise TelegramError, w')
    else (Ok tt, w').

(** [message.reply_text(body)] on an [Optional[Message]]. *)
Definition reply (message : option Message) (body : string) : Handler unit :=
  match message with
  | Some m => api (reply_text (chat_id m) body)
  | None => raise AttributeError
  end.

(** [update.effective_chat.id]. *)
Definition effective_chat_id (update : Update) : Handler Z :=
  match effective_chat update with
  | Some c => ret c
  | None => raise AttributeError
  end.

Definition is_admin (update : Update) (config : Config) : bool :=
  match effective_user update with
  | Some user => user_id user =? admin_user_id config
  | None => false
  end.

Definition ensure_admin (update : Update) (config : Config) : Handler bool :=
  if is_admin update config then ret true
  else
    match effective_message update with
    | Some m =>
        api (reply_text (chat_id m)
               "Эта команда доступна только администратору.") ;;
        ret false
    | None => ret false
    end.

(** Truthiness of an [Optional[int]]: neither [None] nor [0]. *)
Definition py_truthy (v : option Z) : bool :=
  match v with
  | Some n => py_bool n
  | None => false
  end.

Definition binding_status (v : option Z) : string :=
  match v with
  | Some n => if py_bool n then "привязан (" ++ str_int n ++ ")"
              else "не привязан"
  | None => "не привязан"
  end.

Definition build_project_status (project : Project) : string :=
  let customer_status := binding_status (customer_chat_id project) in
  let executor_status := binding_status (executor_chat_id project) in
  let active_status :=
    if is_active project then "активен" else "неактивен" in
  slug project ++ ": заказчик — " ++ customer_status
    ++ ", исполнители — " ++ executor_status
    ++ ", статус — " ++ active_status.

Definition create_project_handler (update : Update) (args : list string)
  (config : Config) : Handler unit :=
  ok <- ensure_admin update config ;;
  if negb ok then ret tt
  else
    match args with
    | [] =>
        reply (effective_message update)
          "Использование: /create_project <slug>"
    | slug :: _ =>
        chat_id <- effective_chat_id update ;;
        created <-
          try_except
            (p <- on_repo (repo_create_project slug chat_id)
                    (fun db => create_project db slug chat_id) ;;
             ret (Some p))
            is_ValueError
            (fun exc =>
               reply (effective_message update) (str_exn exc) ;; ret None) ;;
        match created with
        | None => ret tt
        | Some _ =>
            reply (effective_message update)
              ("Проект " ++ slug
               ++ " создан. Теперь зайдите в чат с заказчиками и выполните /bind_customer "
               ++ slug ++ ".")
        end
    end.

Definition bind_customer_handler (update : Update) (args : list string)
  (config : Config) : Handler unit :=
  ok <- ensure_admin update config ;;
  if negb ok then ret tt
  else
    match args with
    | [] =>
        reply (effective_message update)
          "Использование: /bind_customer <slug>"
    | slug :: _ =>
        chat_id <- effective_chat_id update ;;
        bound <-
          try_except
            (p <- on_repo (repo_bind_customer_chat slug chat_id)
                    (fun db => bind_customer_chat db slug chat_id) ;;
             ret (Some p))
            is_ValueError
            (fun exc =>
               reply (effective_message update) (str_exn exc) ;; ret None) ;;
        match bound with
        | None => ret tt
        | Some project =>
            reply (effective_message update)
              ("Проект " ++ project_slug project
               ++ ": чат заказчика успешно привязан.")
        end
    end.

Definition project_info_handler (update : Update) (args : list string)
  : Handler unit :=
  chat_id <- effective_chat_id update ;;
  found <- on_repo (repo_find_by_chat_id chat_id)
             (fun db => (Ok (find_by_chat_id db chat_id), db)) ;;
  match found with
  | None =>
      reply (effective_message update)
        "Этот чат не привязан ни к одному проекту."
  | Some (project, role) =>
      let role_name :=
        if String.eqb role "executor" then "чат исполнителей"
        else "чат заказчиков" in
      reply (effective_message update)
        ("Проект: " ++ slug project ++ LF ++ "Тип чата: " ++ role_name ++ LF
         ++ "Статус: "
         ++ (if is_active project then "активен" else "неактивен"))
  end.

Definition list_projects_handler (update : Update) (args : list string)
  (config : Config) : Handler unit :=
  ok <- ensure_admin update config ;;
  if negb ok then ret tt
  else
    projects <- on_repo repo_list_projects
                  (fun db => (Ok (list_projects db), db)) ;;
    match projects with
    | [] => reply (effective_message update) "Проектов пока нет."
    | _ :: _ =>
        let lines :=
          ("Список проектов:" :: map build_project_status projects)%list in
        reply (effective_message update) (String.concat LF lines)
    end.

Definition unlink_project_handler (update : Update) (args : list string)
  (config : Config) : Handler unit :=
  ok <- ensure_admin update config ;;
  if negb ok then ret tt
  else
    match args with
    | [] =>
        reply (effective_message update)
          "Использование: /unlink_project <slug>"
    | slug :: _ =>
        chat_id <- effective_chat_id update ;;
        unlinked <-
          try_except
            (p <- on_repo (repo_unlink_chat slug chat_id)
                    (fun db => unlink_chat db slug chat_id) ;;
             ret (Some p))
            is_ValueError
            (fun exc =>
               reply (effective_message update) (str_exn exc) ;; ret None) ;;
        match unlinked with
        | None => ret tt
        | Some project =>
            reply (effective_message update)
              ("Проект " ++ project_slug project
               ++ ": чат отвязан, проект деактивирован.")
        end
    end.

Definition caption_for_role (role : string) : string :=
  if String.eqb role "executor" then "🧑‍🎨 Сообщение от команды."
  else "👤 Сообщение от клиента.".

Definition build_media_caption (role : string)
  (original_caption : option string) : string :=
  let base := caption_for_role role in
  match if_str original_caption with
  | Some c => base ++ LF ++ c
  | None => base
  end.

Definition prefix_for_role (role : string) : string :=
  if String.eqb role "executor" then "🧑‍🎨 Сообщение от команды: "
  else "👤 Сообщение от клиента: ".

Definition no_pairing_notice : string :=
  "В проекте не привязан парный чат. Обратитесь к администратору.".

Definition unsupported_notice : string :=
  "Тип сообщения не поддерживается для пересылки.".

Definition delivery_failed_notice : string :=
  "Не удалось отправить сообщение в парный чат. Проверьте настройки бота.".

Definition relay_message (update : Update) : Handler unit :=
  match effective_message update with
  | None => ret tt
  | Some message =>
      if match from_user message with
         | Some u => is_bot u
         | None => false
         end
      then ret tt
      else
        let chat_id := chat_id message in
        found <- on_repo (repo_find_by_chat_id chat_id)
                   (fun db => (Ok (find_by_chat_id db chat_id), db)) ;;
        match found with
        | None => ret tt
        | Some (project, role) =>
            let target_chat_id :=
              if String.eqb role "executor" then customer_chat_id project
              else executor_chat_id project in
            match target_chat_id with
            | None => api (reply_text chat_id no_pairing_notice)
            | Some target_chat_id =>
                if negb (py_bool target_chat_id)
                then api (reply_text chat_id no_pairing_notice)
                else
                  let caption := build_media_caption role (caption message) in
                  let caption := caption_for_role role in
                  let text_prefix := prefix_for_role role in
                  try_except
                    match if_str (text message) with
                    | Some t =>
                        api (send_message target_chat_id (text_prefix ++ t))
                    | None =>
                    match document message with
                    | Some file_id =>
                        api (send_document target_chat_id file_id caption)
                    | None =>
                    match photo message with
                    | (_ :: _) as sizes =>
                        let photo := last sizes "" in
                        api (send_photo target_chat_id photo caption)
                    | [] =>
                    match voice message with
                    | Some file_id =>
                        api (send_voice target_chat_id file_id caption)
                    | None =>
                    match audio message with
                    | Some file_id =>
                        api (send_audio target_chat_id file_id caption)
                    | None =>
                    match video message with
                    | Some file_id =>
                        api (send_video target_chat_id file_id caption)
                    | None => api (reply_text chat_id unsupported_notice)
                    end end end end end end
                    is_TelegramError
                    (fun exc =>
                       record (logger_exception (slug project)) ;;
                       api (reply_text chat_id delivery_failed_notice))
            end
        end
  end.

Definition help_text : string :=
  "Доступные команды:" ++ LF
  ++ "/project_info — информация о проекте, к которому привязан чат." ++ LF
  ++ "Команды администратора: /create_project, /bind_customer, /list_projects, /unlink_project.".

Definition help_handler (update : Update) (args : list string)
  : Handler unit :=
  reply (effective_message update) help_text.


End Handlers.

(** ** Running a handler *)

(** A handler run on a table, from an empty history. *)
Definition run {A} (h : Handler A) (db : Table) : result A * World :=
  h (mkWorld db []).

(** The calls the handler made, in order. *)
Definition calls {A} (h : Handler A) (db : Table) : list Call :=
  history (snd (run h db)).

Definition is_repo_call (c : Call) : bool :=
  match c with
  | repo_create_project _ _ | repo_bind_customer_chat _ _
  | repo_find_by_chat_id _ | repo_list_projects | repo_unlink_chat _ _ => true
  | _ => false
  end.

(** The chat a forwarding call delivers to. *)
Definition forward_destination (c : Call) : option Z :=
  match c with
  | send_message chat _ | send_document chat _ _ | send_photo chat _ _
  | send_voice chat _ _ | send_audio chat _ _ | send_video chat _ _ =>
      Some chat
  | _ => None
  end.

(** [message.from_user and message.from_user.is_bot]. *)
Definition from_bot (message : Message) : bool :=
  match from_user message with
  | Some u => is_bot u
  | None => false
  end.

(** The relay resolved a message from [sender] to the destination [target]:
    after the lookup, its first call delivers to [target] (or, for content
    it cannot forward, tells the sender so), and no later call delivers
    anywhere. *)
Definition resolves_to (made : list Call) (sender target : Z) : Prop :=
  exists c rest,
    made = repo_find_by_chat_id sender :: c :: rest /\
    (forward_destination c = Some target \/
     c = reply_text sender unsupported_notice) /\
    Forall (fun c' => forward_destination c' = None) rest.



(** A Telegram API that never fails. *)
Definition reliable : list Call -> Call -> bool := fun _ _ => false.

(** ** Auxiliary definitions for the statements *)

(** The [SET] clause of [bind_customer_chat]. *)
Definition bound_row (chat_id : Z) (r : Row) : Row :=
  mkRow (row_slug r) (Some chat_id) (row_executor r) 1.

(** The [SET] clause of [unlink_chat]. *)
Definition unlinked_row (new_customer new_executor : option Z) (r : Row)
  : Row :=
  mkRow (row_slug r) new_customer new_executor 0.

(** The [WHERE] clause of [find_by_chat_id]. *)
Definition claims_chat (chat_id : Z) (r : Row) : bool :=
  sql_eq (row_customer r) chat_id || sql_eq (row_executor r) chat_id.

(** The lookup by endpoint as the specification words it: the first
    qualifying record with the records taken in ascending slug order. *)
Definition first_match_in_slug_order (db : Table) (chat_id : Z)
  : option (Project * string) :=
  find_by_chat_id (order_by_slug db) chat_id.

(** The destination the relay computes from a lookup result. *)
Definition opposite_side (project : Project) (role : string) : option Z :=
  if String.eqb role "executor" then customer_chat_id project
  else executor_chat_id project.

(** The running example: [create_project("proj1", 100)], then
    [bind_customer_chat("proj1", 200)], then [unlink_chat("proj1", 100)]. *)
Definition db_created : Table := snd (create_project init_db "proj1" 100).
Definition db_bound : Table := snd (bind_customer_chat db_created "proj1" 200).
Definition db_unlinked : Table := snd (unlink_chat db_bound "proj1" 100).

Definition bound_project : Project := mkProject "proj1" (Some 200) (Some 100) true.

Definition text_message (chat : Z) (body : string) : Message :=
  mkMessage chat None (Some body) None None [] None None None.

Definition document_message (chat : Z) (file_id : string)
  (cap : option string) : Message :=
  mkMessage chat None None cap (Some file_id) [] None None None.

Definition update_of (sender : option User) (m : Message) : Update :=
  mkUpdate sender (Some (chat_id m)) (Some m).

(** ** config.py: load_config *)

Definition ASKEDITME_TELEGRAM_ID : Z := 205386594.

Section LoadConfig.

(** [os.getenv(name)]: the process environment. *)
Variable getenv : string -> option string.

(** Python's [int(s)] on a string; [None] stands for its [ValueError]. *)
Variable py_int : string -> option Z.

Definition load_config : result Config :=
  let token := getenv "BOT_TOKEN" in
  match if_str token with
  | None => Raise (ValueError "BOT_TOKEN is required")
  | Some token =>
      let admin_raw := getenv "ADMIN_USER_ID" in
      match
        match if_str admin_raw with
        | Some raw => py_int raw
        | None => Some ASKEDITME_TELEGRAM_ID
        end
      with
      | None => Raise (ValueError "ADMIN_USER_ID must be an integer")
      | Some admin_id =>
          let db_path :=
            match getenv "DB_PATH" with
            | Some path => path
            | None => "projects.db"
            end in
          Ok (mkConfig token admin_id db_path)
      end
  end.

End LoadConfig.

(** ** Histories of repository operations *)

(** The three methods that write to the table. *)
Inductive Mutation : Type :=
| do_create_project (slug : string) (chat : Z)
| do_bind_customer_chat (slug : string) (chat : Z)
| do_unlink_chat (slug : string) (chat : Z).

(** The table after one call, whether it succeeded or raised. *)
Definition apply_mutation (db : Table) (c : Mutation) : Table :=
  match c with
  | do_create_project s e => snd (create_project db s e)
  | do_bind_customer_chat s e => snd (bind_customer_chat db s e)
  | do_unlink_chat s e => snd (unlink_chat db s e)
  end.

Definition apply_mutations (db : Table) (cs : list Mutation) : Table :=
  fold_left apply_mutation cs db.

(** Every [is_active] cell holds 0 or 1. *)
Definition active_is_flag (db : Table) : Prop :=
  Forall (fun r => row_active r = 0 \/ row_active r = 1) db.

(** No row other than the row of [s] claims the chat [e]. *)
Definition claimed_only_by (db : Table) (e : Z) (s : string) : Prop :=
  forall r, In r db -> claims_chat e r = true -> row_slug r = s.

Definition is_telegram_call (c : Call) : bool :=
  match c with
  | reply_text _ _ | send_message _ _ | send_document _ _ _
  | send_photo _ _ _ | send_voice _ _ _ | send_audio _ _ _
  | send_video _ _ _ => true
  | _ => false
  end.

(** The Telegram API accepts every [reply_text]. *)
Definition replies_succeed (tg : list Call -> Call -> bool) : Prop :=
  forall h chat body, tg h (reply_text chat body) = false.


Definition is_forward (c : Call) : bool :=
  match forward_destination c with
  | Some _ => true
  | None => false
  end.

(** The names [build_application] registers a command handler for. *)
Definition registered_commands : list string :=
  ["start"; "help"; "create_project"; "bind_customer"; "project_info";
   "list_projects"; "unlink_project"].

(** Deciding whether a nullable integer column holds a given value. *)
Definition option_eq_dec_Z (a b : option Z) : {a = b} + {a <> b}.
Proof. decide equality. apply Z.eq_dec. Defined.

(** [ORDER BY slug] on projects. *)
Definition slug_le (p q : Project) : Prop :=
  String.leb (slug p) (slug q) = true.

(** * Properties of the binding store *)

Section StoreFacts.

Lemma find_by_slug_cons r db s :
  find_by_slug (r :: db) s =
  if String.eqb (row_slug r) s then Some (_row_to_project r)
  else find_by_slug db s.
Proof.
  unfold find_by_slug, select; simpl.
  destruct (String.eqb (row_slug r) s); reflexivity.
Qed.

Lemma find_by_slug_app db1 db2 s :
  find_by_slug (db1 ++ db2)%list s =
  match find_by_slug db1 s with
  | Some p => Some p
  | None => find_by_slug db2 s
  end.
Proof.
  induction db1 as [|r db1 IH]; [reflexivity|].
  rewrite <- app_comm_cons, !find_by_slug_cons.
  destruct (String.eqb (row_slug r) s); [reflexivity|exact IH].
Qed.

Lemma find_by_slug_slug db s p :
  find_by_slug db s = Some p -> slug p = s.
Proof.
  induction db as [|r db IH]; [discriminate|].
  rewrite find_by_slug_cons.
  destruct (String.eqb (row_slug r) s) eqn:E; [|exact IH].
  intros [= <-]. now apply String.eqb_eq.
Qed.

(** After [UPDATE ... WHERE slug = s] the row of [s] reads as the updated
    row; rows of other slugs are untouched. *)
Lemma find_by_slug_update_same db s set :
  (forall r, row_slug (set r) = row_slug r) ->
  find_by_slug (update_where_slug s set db) s =
  match fetchone (select (fun r => String.eqb (row_slug r) s) db) with
  | Some r => Some (_row_to_project (set r))
  | None => None
  end.
Proof.
  intros Hset. induction db as [|r db IH]; [reflexivity|].
  unfold update_where_slug in *; simpl map. rewrite find_by_slug_cons.
  unfold select in *; simpl filter.
  destruct (String.eqb (row_slug r) s) eqn:E.
  - rewrite Hset, E. reflexivity.
  - rewrite E. exact IH.
Qed.

Lemma find_by_slug_update_other db s s' set :
  (forall r, row_slug (set r) = row_slug r) ->
  s' <> s ->
  find_by_slug (update_where_slug s set db) s' = find_by_slug db s'.
Proof.
  intros Hset Hne. induction db as [|r db IH]; [reflexivity|].
  unfold update_where_slug in *; simpl map. rewrite !find_by_slug_cons.
  destruct (String.eqb (row_slug r) s) eqn:E.
  - rewrite Hset. apply String.eqb_eq in E. rewrite E.
    destruct (String.eqb s s') eqn:E'.
    + apply String.eqb_eq in E'. congruence.
    + exact IH.
  - rewrite IH. reflexivity.
Qed.

Lemma update_where_slug_twice db s f g :
  (forall r, row_slug (f r) = row_slug r) ->
  update_where_slug s g (update_where_slug s f db) =
  update_where_slug s (fun r => g (f r)) db.
Proof.
  intros Hf. unfold update_where_slug. rewrite map_map.
  apply map_ext. intros r.
  destruct (String.eqb (row_slug r) s) eqn:E.
  - rewrite Hf, E. reflexivity.
  - rewrite E. reflexivity.
Qed.

Lemma update_where_slug_slugs db s set :
  (forall r, row_slug (set r) = row_slug r) ->
  map row_slug (update_where_slug s set db) = map row_slug db.
Proof.
  intros Hset. unfold update_where_slug. rewrite map_map.
  apply map_ext. intros r.
  destruct (String.eqb (row_slug r) s); [apply Hset|reflexivity].
Qed.

Lemma find_by_slug_None_not_in db s :
  find_by_slug db s = None <-> ~ In s (map row_slug db).
Proof.
  induction db as [|r db IH]; simpl.
  - split; [intros _ []|reflexivity].
  - rewrite find_by_slug_cons.
    destruct (String.eqb (row_slug r) s) eqn:E.
    + apply String.eqb_eq in E. split; [discriminate|]. intros H. elim H. now left.
    + apply String.eqb_neq in E. rewrite IH. tauto.
Qed.

(** The primary-key invariant holds initially and is kept by every
    operation. *)
Lemma wf_init_db : wf_table init_db.
Proof. constructor. Qed.

Lemma wf_create_project db s e :
  wf_table db -> wf_table (snd (create_project db s e)).
Proof.
  intros Hwf. unfold create_project.
  destruct (fetchone _) eqn:E; [exact Hwf|]. simpl.
  assert (Hnone : find_by_slug db s = None)
    by (unfold find_by_slug; rewrite E; reflexivity).
  apply find_by_slug_None_not_in in Hnone.
  unfold wf_table. rewrite map_app. simpl.
  apply NoDup_app; [exact Hwf|repeat constructor; intros []|].
  intros x Hx [<-|[]]. tauto.
Qed.

Lemma wf_bind_customer_chat db s e :
  wf_table db -> wf_table (snd (bind_customer_chat db s e)).
Proof.
  intros Hwf. unfold bind_customer_chat.
  destruct (find_by_slug db s); [|exact Hwf]. simpl.
  unfold wf_table. rewrite update_where_slug_slugs; [exact Hwf|reflexivity].
Qed.

Lemma wf_unlink_chat db s e :
  wf_table db -> wf_table (snd (unlink_chat db s e)).
Proof.
  intros Hwf. unfold unlink_chat.
  destruct (find_by_slug db s); [|exact Hwf]. simpl.
  unfold wf_table. rewrite update_where_slug_slugs; [exact Hwf|reflexivity].
Qed.

End StoreFacts.

(** ** Creation *)

Lemma create_project_unknown db s e :
  find_by_slug db s = None ->
  create_project db s e =
  (Ok (mkProject s None (Some e) true),
   (db ++ [mkRow s None (Some e) 1])%list).
Proof.
  unfold find_by_slug, create_project.
  destruct (fetchone _); [discriminate|reflexivity].
Qed.

Lemma create_project_known db s e p :
  find_by_slug db s = Some p ->
  create_project db s e = (Raise DuplicateSlug, db).
Proof.
  unfold find_by_slug, create_project.
  destruct (fetchone _); [reflexivity|discriminate].
Qed.

Lemma find_by_slug_created db s e :
  find_by_slug db s = None ->
  find_by_slug (db ++ [mkRow s None (Some e) 1])%list s =
  Some (mkProject s None (Some e) true).
Proof.
  intros Hnone. rewrite find_by_slug_app, Hnone, find_by_slug_cons.
  simpl. rewrite String.eqb_refl. reflexivity.
Qed.



(** C4: once [create_project] has succeeded for a slug, a second call with
    that slug raises the duplicate-slug error whatever the endpoint, and
    leaves the table as the first call left it.  The match is exact: a slug
    that differs, in letter case or otherwise, and is not in the table yet
    is still accepted. *)
Theorem create_project_duplicate db s e1 e2 p db1 :
  create_project db s e1 = (Ok p, db1) ->
  create_project db1 s e2 = (Raise DuplicateSlug, db1) /\
  (forall s', s' <> s -> find_by_slug db s' = None ->
     fst (create_project db1 s' e2) = Ok (mkProject s' None (Some e2) true)).
Proof.
  intros Hfirst.
  assert (Hnone : find_by_slug db s = None).
  { unfold create_project in Hfirst. unfold find_by_slug.
    destruct (fetchone _); [discriminate|reflexivity]. }
  rewrite (create_project_unknown _ _ _ Hnone) in Hfirst.
  injection Hfirst as <- <-. split.
  - eapply create_project_known. apply find_by_slug_created, Hnone.
  - intros s' Hne Hnone'. rewrite create_project_unknown; [reflexivity|].
    rewrite find_by_slug_app, Hnone', find_by_slug_cons. simpl.
    destruct (String.eqb s s') eqn:E; [|reflexivity].
    apply String.eqb_eq in E. congruence.
Qed.

Lemma create_project_duplicate_witness :
  let db1 := [mkRow "proj1" None (Some 100) 1] in
  create_project db1 "proj1" 300 = (Raise DuplicateSlug, db1) /\
  (forall s', s' <> "proj1" -> find_by_slug init_db s' = None ->
     fst (create_project db1 s' 300) = Ok (mkProject s' None (Some 300) true)).
Proof.
  apply (create_project_duplicate init_db "proj1" 100 300
           (mkProject "proj1" None (Some 100) true)).
  reflexivity.
Defined.

Example create_project_case_sensitive :
  fst (create_project [mkRow "proj1" None (Some 100) 1] "Proj1" 300) =
  Ok (mkProject "Proj1" None (Some 300) true).
Proof. reflexivity. Qed.

(** ** Binding the customer side *)

Lemma bind_customer_chat_table db s e p :
  find_by_slug db s = Some p ->
  bind_customer_chat db s e =
  (Ok (mkProject (slug p) (Some e) (executor_chat_id p) true),
   update_where_slug s (bound_row e) db).
Proof.
  intros Hp. unfold bind_customer_chat. rewrite Hp. reflexivity.
Qed.

Lemma find_by_slug_bound db s e p :
  find_by_slug db s = Some p ->
  find_by_slug (update_where_slug s (bound_row e) db) s =
  Some (mkProject (slug p) (Some e) (executor_chat_id p) true).
Proof.
  intros Hp. rewrite find_by_slug_update_same by reflexivity.
  unfold find_by_slug in Hp. destruct (fetchone _); [|discriminate].
  injection Hp as <-. reflexivity.
Qed.

(** C5: [bind_customer_chat] raises the project-not-found error exactly
    when the slug is unknown, and then leaves the table alone; on a known
    slug it succeeds, and the project then reads with the given customer
    endpoint and active, whatever its customer endpoint and activity were
    before; its slug and executor endpoint, and all other projects, are as
    before. *)
Theorem bind_customer_chat_spec db s e :
  match find_by_slug db s with
  | None => bind_customer_chat db s e = (Raise ProjectNotFound, db)
  | Some p =>
      let p' := mkProject (slug p) (Some e) (executor_chat_id p) true in
      exists db',
        bind_customer_chat db s e = (Ok p', db') /\
        find_by_slug db' s = Some p' /\
        (forall s', s' <> s -> find_by_slug db' s' = find_by_slug db s')
  end.
Proof.
  destruct (find_by_slug db s) as [p|] eqn:Hp.
  - intros p'. exists (update_where_slug s (bound_row e) db). split; [|split].
    + apply bind_customer_chat_table, Hp.
    + apply find_by_slug_bound, Hp.
    + intros s' Hne. now apply find_by_slug_update_other.
  - unfold bind_customer_chat. rewrite Hp. reflexivity.
Qed.

Lemma bind_customer_chat_spec_witness :
  bind_customer_chat init_db "proj1" 200 = (Raise ProjectNotFound, init_db) /\
  exists db',
    bind_customer_chat db_created "proj1" 200 =
      (Ok (mkProject "proj1" (Some 200) (Some 100) true), db') /\
    find_by_slug db' "proj1" =
      Some (mkProject "proj1" (Some 200) (Some 100) true) /\
    (forall s', s' <> "proj1" -> find_by_slug db' s' = find_by_slug db_created s').
Proof.
  split.
  - exact (bind_customer_chat_spec init_db "proj1" 200).
  - exact (bind_customer_chat_spec db_created "proj1" 200).
Defined.

(** Rebinding a deactivated project brings it back. *)
Example bind_customer_chat_reactivates :
  let db := [mkRow "proj1" (Some 200) None 0] in
  find_by_slug db "proj1" = Some (mkProject "proj1" (Some 200) None false) /\
  find_by_slug (snd (bind_customer_chat db "proj1" 300)) "proj1" =
  Some (mkProject "proj1" (Some 300) None true).
Proof. split; reflexivity. Qed.

(** C8: on a known slug, binding the same customer endpoint a second time
    succeeds like the first time, returns the same project, and leaves the
    whole table (hence every project's endpoints and activity) as the first
    call left it. *)
Theorem bind_customer_chat_idempotent db s e p :
  find_by_slug db s = Some p ->
  exists p' db1,
    bind_customer_chat db s e = (Ok p', db1) /\
    bind_customer_chat db1 s e = (Ok p', db1).
Proof.
  intros Hp.
  exists (mkProject (slug p) (Some e) (executor_chat_id p) true),
         (update_where_slug s (bound_row e) db).
  split; [apply bind_customer_chat_table, Hp|].
  rewrite (bind_customer_chat_table _ _ e _ (find_by_slug_bound _ _ e _ Hp)).
  simpl. rewrite update_where_slug_twice by reflexivity. reflexivity.
Qed.

Lemma bind_customer_chat_idempotent_witness :
  let db := [mkRow "proj1" None (Some 100) 1] in
  find_by_slug db "proj1" = Some (mkProject "proj1" None (Some 100) true) /\
  exists p' db1,
    bind_customer_chat db "proj1" 200 = (Ok p', db1) /\
    bind_customer_chat db1 "proj1" 200 = (Ok p', db1).
Proof.
  split; [reflexivity|].
  apply (bind_customer_chat_idempotent
           [mkRow "proj1" None (Some 100) 1] "proj1" 200
           (mkProject "proj1" None (Some 100) true)).
  reflexivity.
Defined.

(** ** Lookup by endpoint *)

Lemma sql_eq_true col v : sql_eq col v = true <-> col = Some v.
Proof.
  destruct col as [c|]; simpl.
  - rewrite Z.eqb_eq. split; congruence.
  - split; discriminate.
Qed.

Lemma py_eq_true v field : py_eq v field = true <-> field = Some v.
Proof.
  destruct field as [c|]; simpl.
  - rewrite Z.eqb_eq. split; congruence.
  - split; discriminate.
Qed.

Lemma claims_chat_true e r :
  claims_chat e r = true <-> row_customer r = Some e \/ row_executor r = Some e.
Proof.
  unfold claims_chat. rewrite orb_true_iff, !sql_eq_true. reflexivity.
Qed.

Lemma claims_chat_false e r :
  claims_chat e r = false <-> row_customer r <> Some e /\ row_executor r <> Some e.
Proof.
  rewrite <- not_true_iff_false, claims_chat_true. tauto.
Qed.

(** [fetchone] on a [SELECT] returns the first row in scan order that
    satisfies the condition. *)
Lemma fetchone_select_Some cond db r :
  fetchone (select cond db) = Some r ->
  exists before after,
    db = (before ++ r :: after)%list /\ cond r = true /\
    forall r', In r' before -> cond r' = false.
Proof.
  unfold select. induction db as [|r0 db IH]; simpl; [discriminate|].
  destruct (cond r0) eqn:E; simpl.
  - intros [= ->]. exists [], db. repeat split; [exact E|intros ? []].
  - intros H. destruct (IH H) as (before & after & -> & Hr & Hb).
    exists (r0 :: before), after. repeat split; [exact Hr|].
    intros r' [<-|Hin]; [exact E|now apply Hb].
Qed.

Lemma fetchone_select_None cond db :
  fetchone (select cond db) = None ->
  forall r, In r db -> cond r = false.
Proof.
  unfold select. induction db as [|r0 db IH]; simpl; [intros _ ? []|].
  destruct (cond r0) eqn:E; simpl; [discriminate|].
  intros H r [<-|Hin]; [exact E|now apply IH].
Qed.

Lemma fetchone_select_first cond before r after :
  cond r = true -> (forall r', In r' before -> cond r' = false) ->
  fetchone (select cond (before ++ r :: after)%list) = Some r.
Proof.
  intros Hr. unfold select. induction before as [|r0 before IH]; simpl; intros Hb.
  - rewrite Hr. reflexivity.
  - rewrite (Hb r0) by now left. apply IH. intros r' Hin. apply Hb. now right.
Qed.

Lemma find_by_chat_id_row db e :
  find_by_chat_id db e =
  match fetchone (select (claims_chat e) db) with
  | None => None
  | Some r =>
      Some (_row_to_project r,
            if py_eq e (row_customer r) then "customer" else "executor")
  end.
Proof. reflexivity. Qed.

(** C3, as the code has it: the lookup scans both binding columns for an
    exact match and returns the first qualifying row in the table's scan
    order, which is the order of insertion; it returns nothing exactly when
    no row qualifies.  The role is "customer" exactly when the customer
    column of the returned project is the endpoint, and "executor"
    otherwise. *)
Theorem find_by_chat_id_first_in_scan_order db e :
  match find_by_chat_id db e with
  | None =>
      forall r, In r db -> row_customer r <> Some e /\ row_executor r <> Some e
  | Some (p, role) =>
      exists before r after,
        db = (before ++ r :: after)%list /\
        p = _row_to_project r /\
        (forall r', In r' before ->
           row_customer r' <> Some e /\ row_executor r' <> Some e) /\
        (customer_chat_id p = Some e \/ executor_chat_id p = Some e) /\
        (role = "customer" <-> customer_chat_id p = Some e) /\
        (role = "executor" <-> customer_chat_id p <> Some e)
  end.
Proof.
  rewrite find_by_chat_id_row.
  destruct (fetchone _) as [r|] eqn:E.
  - destruct (fetchone_select_Some _ _ _ E) as (before & after & Hdb & Hr & Hb).
    exists before, r, after. split; [exact Hdb|]. split; [reflexivity|].
    split; [intros r' Hin; apply claims_chat_false, Hb, Hin|].
    split; [apply claims_chat_true, Hr|]. simpl.
    destruct (py_eq e (row_customer r)) eqn:Hc.
    + apply py_eq_true in Hc. split; split; try tauto; try discriminate.
    + assert (row_customer r <> Some e)
        by (rewrite <- py_eq_true; congruence).
      split; split; try tauto; try discriminate.
  - intros r Hin. apply claims_chat_false. exact (fetchone_select_None _ _ E r Hin).
Qed.

Lemma find_by_chat_id_first_in_scan_order_witness :
  let db := [mkRow "b" None (Some 100) 1; mkRow "a" (Some 200) (Some 100) 1] in
  (forall r, In r db -> row_customer r <> Some 300 /\ row_executor r <> Some 300) /\
  exists before r after,
    db = (before ++ r :: after)%list /\
    mkProject "a" (Some 200) (Some 100) true = _row_to_project r /\
    (forall r', In r' before ->
       row_customer r' <> Some 200 /\ row_executor r' <> Some 200) /\
    (Some 200 = Some 200 \/ Some 100 = Some 200) /\
    ("customer" = "customer" <-> Some 200 = Some 200) /\
    ("customer" = "executor" <-> Some 200 <> Some 200).
Proof.
  split.
  - exact (find_by_chat_id_first_in_scan_order
             [mkRow "b" None (Some 100) 1; mkRow "a" (Some 200) (Some 100) 1] 300).
  - exact (find_by_chat_id_first_in_scan_order
             [mkRow "b" None (Some 100) 1; mkRow "a" (Some 200) (Some 100) 1] 200).
Defined.

(** Ordering by slug only permutes the rows, so when a single row claims
    the endpoint the two orders give the same answer. *)
Lemma insert_by_slug_perm r rows :
  Permutation (insert_by_slug r rows) (r :: rows).
Proof.
  induction rows as [|r' rows IH]; simpl; [reflexivity|].
  destruct (String.leb (row_slug r) (row_slug r')); [reflexivity|].
  rewrite IH. apply perm_swap.
Qed.

Lemma order_by_slug_perm rows : Permutation (order_by_slug rows) rows.
Proof.
  induction rows as [|r rows IH]; simpl; [reflexivity|].
  rewrite insert_by_slug_perm. now constructor.
Qed.

Lemma select_perm cond rows rows' :
  Permutation rows rows' -> Permutation (select cond rows) (select cond rows').
Proof.
  unfold select. induction 1; simpl.
  - constructor.
  - destruct (cond x); [now constructor|assumption].
  - destruct (cond x), (cond y); try reflexivity. apply perm_swap.
  - etransitivity; eassumption.
Qed.

Lemma find_by_chat_id_unambiguous db e r :
  select (claims_chat e) db = [r] ->
  first_match_in_slug_order db e = find_by_chat_id db e.
Proof.
  intros Hone. unfold first_match_in_slug_order.
  rewrite !find_by_chat_id_row.
  assert (Hperm : Permutation [r] (select (claims_chat e) (order_by_slug db))).
  { rewrite <- Hone. apply select_perm. symmetry. apply order_by_slug_perm. }
  apply Permutation_length_1_inv in Hperm. rewrite Hperm, Hone. reflexivity.
Qed.

(** C3, as stated, fails: with "b" created before "a" on the same chat, the
    lookup returns "b", while "a" comes first in slug order. *)
Lemma find_by_chat_id_not_in_slug_order :
  let db := snd (create_project (snd (create_project init_db "b" 100)) "a" 100) in
  wf_table db /\
  find_by_chat_id db 100 = Some (mkProject "b" None (Some 100) true, "executor") /\
  first_match_in_slug_order db 100 =
    Some (mkProject "a" None (Some 100) true, "executor") /\
  find_by_chat_id db 100 <> first_match_in_slug_order db 100.
Proof.
  split; [|split; [reflexivity|split; [reflexivity|discriminate]]].
  apply wf_create_project, wf_create_project, wf_init_db.
Qed.

(** * Properties of the relay *)

Section RelayFacts.

Variable telegram_raises : list Call -> Call -> bool.

Lemma py_truthy_false v :
  py_truthy v = false <-> v = None \/ v = Some 0.
Proof.
  destruct v as [n|]; simpl; unfold py_bool.
  - destruct (Z.eqb_spec n 0) as [->|Hn]; simpl.
    + split; auto.
    + split; [discriminate|]. intros [H|H]; congruence.
  - split; auto.
Qed.

(** A resolved message whose counterpart is unusable: one lookup, then the
    notice to the sender, and nothing else. *)
Lemma relay_message_no_pairing u m db p role :
  effective_message u = Some m ->
  from_bot m = false ->
  find_by_chat_id db (chat_id m) = Some (p, role) ->
  py_truthy (opposite_side p role) = false ->
  calls (relay_message telegram_raises u) db =
  [repo_find_by_chat_id (chat_id m);
   reply_text (chat_id m) no_pairing_notice].
Proof.
  intros Hm Hbot Hfind Htarget.
  unfold calls, run, relay_message. rewrite Hm.
  unfold from_bot in Hbot. rewrite Hbot.
  unfold bind, on_repo. simpl. rewrite Hfind.
  unfold opposite_side in Htarget.
  destruct (if String.eqb role "executor" then customer_chat_id p
            else executor_chat_id p) as [t|]; simpl in Htarget.
  - rewrite Htarget. unfold api. simpl.
    destruct (telegram_raises _ _); reflexivity.
  - unfold api. simpl. destruct (telegram_raises _ _); reflexivity.
Qed.

(** A resolved message whose counterpart is usable: one lookup, then one
    call that either delivers to the counterpart or tells the sender that
    the content is unsupported; whatever follows is failure handling and
    delivers nowhere. *)
Lemma relay_message_forwards u m db p role t :
  effective_message u = Some m ->
  from_bot m = false ->
  find_by_chat_id db (chat_id m) = Some (p, role) ->
  opposite_side p role = Some t ->
  t <> 0 ->
  resolves_to (calls (relay_message telegram_raises u) db) (chat_id m) t.
Proof.
  unfold resolves_to.
  intros Hm Hbot Hfind Htarget Ht.
  unfold calls, run, relay_message. rewrite Hm.
  unfold from_bot in Hbot. rewrite Hbot.
  unfold bind, on_repo. simpl. rewrite Hfind.
  unfold opposite_side in Htarget. rewrite Htarget.
  unfold py_bool. apply Z.eqb_neq in Ht. rewrite Ht. simpl.
  unfold try_except, api, bind, record.
  destruct (if_str (text m)) as [body|];
    [|destruct (document m) as [d|];
      [|destruct (photo m) as [|s0 sizes];
        [destruct (voice m) as [v|];
          [|destruct (audio m) as [a|];
            [|destruct (video m) as [vd|]]]|]]];
    cbn [history table fst snd app];
    match goal with
    | |- context [telegram_raises [?c0] ?c] =>
        destruct (telegram_raises [c0] c); cbn [history table fst snd app is_TelegramError]
    end;
    try match goal with
    | |- context [telegram_raises ?h ?c] =>
        destruct (telegram_raises h c); cbn [history table fst snd app]
    end;
    eexists _, _; (split; [reflexivity|]);
    (split; [first [left; reflexivity | right; reflexivity]|]);
    repeat constructor.
Qed.

Lemma relay_message_text u m db p role t body :
  effective_message u = Some m ->
  from_bot m = false ->
  find_by_chat_id db (chat_id m) = Some (p, role) ->
  opposite_side p role = Some t ->
  t <> 0 ->
  if_str (text m) = Some body ->
  telegram_raises [repo_find_by_chat_id (chat_id m)]
    (send_message t (prefix_for_role role ++ body)) = false ->
  calls (relay_message telegram_raises u) db =
  [repo_find_by_chat_id (chat_id m);
   send_message t (prefix_for_role role ++ body)].
Proof.
  intros Hm Hbot Hfind Htarget Ht Hbody Hok.
  unfold calls, run, relay_message. rewrite Hm.
  unfold from_bot in Hbot. rewrite Hbot.
  unfold bind, on_repo. cbn [history table fst snd app]. rewrite Hfind.
  unfold opposite_side in Htarget. rewrite Htarget.
  unfold py_bool. apply Z.eqb_neq in Ht. rewrite Ht. cbn [negb].
  unfold try_except, api. rewrite Hbody.
  cbn [history table fst snd app]. rewrite Hok. reflexivity.
Qed.

End RelayFacts.

(** ** The bound pair *)

(** C7: after [create_project("proj1", 100)] and
    [bind_customer_chat("proj1", 200)] on an empty table, the lookup of 100
    gives proj1 as "executor" and the lookup of 200 gives proj1 as
    "customer"; every message from 100 is resolved to destination 200 and
    every message from 200 to destination 100, whatever the Telegram API
    does, and a text message is delivered there with the role prefix.  The
    destination is always the side opposite to the matched role. *)
Theorem routing_of_bound_pair :
  find_by_chat_id db_bound 100 = Some (bound_project, "executor") /\
  find_by_chat_id db_bound 200 = Some (bound_project, "customer") /\
  (forall tg u m,
     effective_message u = Some m -> from_bot m = false ->
     (chat_id m = 100 -> resolves_to (calls (relay_message tg u) db_bound) 100 200) /\
     (chat_id m = 200 -> resolves_to (calls (relay_message tg u) db_bound) 200 100)) /\
  (forall body, nonempty body = true ->
     calls (relay_message reliable (update_of None (text_message 100 body))) db_bound =
       [repo_find_by_chat_id 100;
        send_message 200 (prefix_for_role "executor" ++ body)] /\
     calls (relay_message reliable (update_of None (text_message 200 body))) db_bound =
       [repo_find_by_chat_id 200;
        send_message 100 (prefix_for_role "customer" ++ body)]) /\
  (forall tg u m db p role t,
     effective_message u = Some m -> from_bot m = false ->
     find_by_chat_id db (chat_id m) = Some (p, role) ->
     (if String.eqb role "executor" then customer_chat_id p
      else executor_chat_id p) = Some t ->
     t <> 0 ->
     resolves_to (calls (relay_message tg u) db) (chat_id m) t).
Proof.
  split; [reflexivity|]. split; [reflexivity|]. split; [|split].
  - intros tg u m Hm Hbot. split; intros Hchat; rewrite <- Hchat.
    + apply relay_message_forwards with (m := m) (p := bound_project) (role := "executor");
        try assumption; try reflexivity; try (rewrite Hchat; reflexivity). lia.
    + apply relay_message_forwards with (m := m) (p := bound_project) (role := "customer");
        try assumption; try reflexivity; try (rewrite Hchat; reflexivity). lia.
  - intros body Hbody. split.
    + apply relay_message_text
        with (m := text_message 100 body) (p := bound_project) (role := "executor");
        try reflexivity; [lia|]. simpl. now rewrite Hbody.
    + apply relay_message_text
        with (m := text_message 200 body) (p := bound_project) (role := "customer");
        try reflexivity; [lia|]. simpl. now rewrite Hbody.
  - intros tg u m db p role t Hm Hbot Hfind Htarget Ht.
    now apply relay_message_forwards with (p := p) (role := role).
Qed.

Lemma routing_of_bound_pair_witness :
  resolves_to
    (calls (relay_message reliable
              (update_of None (document_message 100 "file-1" None))) db_bound)
    100 200 /\
  calls (relay_message reliable (update_of None (text_message 200 "hi"))) db_bound =
    [repo_find_by_chat_id 200;
     send_message 100 (prefix_for_role "customer" ++ "hi")].
Proof.
  destruct routing_of_bound_pair as (_ & _ & Hany & Htext & _). split.
  - apply (Hany reliable (update_of None (document_message 100 "file-1" None))
             (document_message 100 "file-1" None)); reflexivity.
  - apply (Htext "hi"). reflexivity.
Defined.

(** ** A counterpart stored as zero *)

(** C10: when the project matched for an inbound message stores the
    counterpart endpoint as the integer 0, the relay behaves as for an
    unbound side: after the lookup its only call is the no-pairing notice
    to the sender, and no call forwards anything. *)
Theorem relay_message_zero_counterpart tg u m db p role :
  effective_message u = Some m ->
  from_bot m = false ->
  find_by_chat_id db (chat_id m) = Some (p, role) ->
  (if String.eqb role "executor" then customer_chat_id p
   else executor_chat_id p) = Some 0 ->
  calls (relay_message tg u) db =
    [repo_find_by_chat_id (chat_id m);
     reply_text (chat_id m) no_pairing_notice] /\
  Forall (fun c => forward_destination c = None) (calls (relay_message tg u) db).
Proof.
  intros Hm Hbot Hfind Hzero.
  assert (Hcalls : calls (relay_message tg u) db =
                   [repo_find_by_chat_id (chat_id m);
                    reply_text (chat_id m) no_pairing_notice]).
  { apply relay_message_no_pairing with (p := p) (role := role); try assumption.
    unfold opposite_side. rewrite Hzero. reflexivity. }
  split; [exact Hcalls|]. rewrite Hcalls. repeat constructor.
Qed.

Lemma relay_message_zero_counterpart_witness :
  let db := [mkRow "proj1" (Some 0) (Some 100) 1] in
  let m := text_message 100 "hi" in
  calls (relay_message reliable (update_of None m)) db =
    [repo_find_by_chat_id 100; reply_text 100 no_pairing_notice] /\
  Forall (fun c => forward_destination c = None)
    (calls (relay_message reliable (update_of None m)) db).
Proof.
  apply (relay_message_zero_counterpart reliable
           (update_of None (text_message 100 "hi")) (text_message 100 "hi")
           [mkRow "proj1" (Some 0) (Some 100) 1]
           (mkProject "proj1" (Some 0) (Some 100) true) "executor");
    reflexivity.
Defined.

(** ** Captions *)

(** The relay never looks at the original caption: two messages that
    differ in their caption only are relayed by the same calls. *)
Lemma relay_message_ignores_caption tg sender chat chat_id_of_message from
  body cap cap' doc sizes v a vd db :
  calls (relay_message tg
           (mkUpdate sender chat
              (Some (mkMessage chat_id_of_message from body cap doc sizes v a vd))))
    db =
  calls (relay_message tg
           (mkUpdate sender chat
              (Some (mkMessage chat_id_of_message from body cap' doc sizes v a vd))))
    db.
Proof. reflexivity. Qed.

(** C1, on the code: a document with the caption "hello", sent from the
    executor chat of the bound pair, reaches the customer chat with the bare
    role label as its caption.  [build_media_caption] would have produced
    the label followed by the original caption, but its result is
    overwritten before use. *)
Theorem relay_message_drops_original_caption :
  let m := document_message 100 "file-1" (Some "hello") in
  calls (relay_message reliable (update_of None m)) db_bound =
    [repo_find_by_chat_id 100;
     send_document 200 "file-1" (caption_for_role "executor")] /\
  build_media_caption "executor" (caption m) =
    caption_for_role "executor" ++ LF ++ "hello" /\
  caption_for_role "executor" <> build_media_caption "executor" (caption m).
Proof.
  split; [reflexivity|]. split; [reflexivity|]. discriminate.
Qed.

(** ** Unlinking *)

Lemma unlink_chat_table db s e p :
  find_by_slug db s = Some p ->
  let new_customer :=
    if py_eq e (customer_chat_id p) then None else customer_chat_id p in
  let new_executor :=
    if py_eq e (executor_chat_id p) then None else executor_chat_id p in
  unlink_chat db s e =
  (Ok (mkProject (slug p) new_customer new_executor false),
   update_where_slug s (unlinked_row new_customer new_executor) db).
Proof.
  intros Hp. unfold unlink_chat. rewrite Hp. reflexivity.
Qed.

Lemma find_by_slug_unlinked db s p c x :
  find_by_slug db s = Some p ->
  find_by_slug (update_where_slug s (unlinked_row c x) db) s =
  Some (mkProject (slug p) c x false).
Proof.
  intros Hp. rewrite find_by_slug_update_same by reflexivity.
  unfold find_by_slug in Hp. destruct (fetchone _); [|discriminate].
  injection Hp as <-. reflexivity.
Qed.

(** Under the primary-key constraint an [UPDATE] by slug changes the one
    row that carries the slug. *)
Lemma update_where_slug_at before r after set :
  wf_table (before ++ r :: after)%list ->
  update_where_slug (row_slug r) set (before ++ r :: after)%list =
  (before ++ set r :: after)%list.
Proof.
  unfold wf_table, update_where_slug. intros Hwf.
  rewrite map_app in Hwf. simpl in Hwf.
  apply NoDup_remove_2 in Hwf.
  rewrite map_app. simpl. rewrite String.eqb_refl. f_equal; [|f_equal].
  - rewrite <- (map_id before) at 2. apply map_ext_in. intros r' Hin.
    destruct (String.eqb (row_slug r') (row_slug r)) eqn:E; [|reflexivity].
    apply String.eqb_eq in E. exfalso. apply Hwf. apply in_or_app. left.
    rewrite <- E. now apply in_map.
  - rewrite <- (map_id after) at 2. apply map_ext_in. intros r' Hin.
    destruct (String.eqb (row_slug r') (row_slug r)) eqn:E; [|reflexivity].
    apply String.eqb_eq in E. exfalso. apply Hwf. apply in_or_app. right.
    rewrite <- E. now apply in_map.
Qed.




(** * Properties of the command surface *)






(** * The running example, step by step *)

Example unknown_endpoint_not_routed :
  calls (relay_message reliable (update_of None (text_message 999 "hi"))) db_bound =
  [repo_find_by_chat_id 999].
Proof. reflexivity. Qed.

Example executor_only_no_pairing :
  calls (relay_message reliable (update_of None (text_message 100 "hi"))) db_created =
  [repo_find_by_chat_id 100; reply_text 100 no_pairing_notice].
Proof. reflexivity. Qed.

Example unlinked_customer_no_pairing :
  find_by_chat_id db_unlinked 200 =
    Some (mkProject "proj1" (Some 200) None false, "customer") /\
  calls (relay_message reliable (update_of None (text_message 200 "hi"))) db_unlinked =
  [repo_find_by_chat_id 200; reply_text 200 no_pairing_notice].
Proof. split; reflexivity. Qed.

Example bot_messages_discarded :
  calls (relay_message reliable
           (update_of None
              (mkMessage 100 (Some (mkUser 7 true)) (Some "hi") None None []
                 None None None))) db_bound = [].
Proof. reflexivity. Qed.

Example list_projects_sorted :
  map slug
    (list_projects
       (snd (create_project (snd (create_project init_db "b" 100)) "a" 100))) =
  ["a"; "b"].
Proof. reflexivity. Qed.

Example delivery_failure_reported :
  calls (relay_message (fun _ c => match c with send_message _ _ => true | _ => false end)
           (update_of None (text_message 200 "hi"))) db_bound =
  [repo_find_by_chat_id 200;
   send_message 100 (prefix_for_role "customer" ++ "hi");
   logger_exception "proj1";
   reply_text 200 delivery_failed_notice].
Proof. reflexivity. Qed.

(** * Further properties of the binding store *)

Lemma find_by_slug_Some_in db s p :
  find_by_slug db s = Some p -> In s (map row_slug db).
Proof.
  intros Hp. destruct (in_dec string_dec s (map row_slug db)) as [Hin|Hnin];
    [exact Hin|].
  apply find_by_slug_None_not_in in Hnin. congruence.
Qed.

Lemma fetchone_select_all_false cond db :
  (forall r, In r db -> cond r = false) -> fetchone (select cond db) = None.
Proof.
  unfold select. induction db as [|r db IH]; intros H; [reflexivity|].
  simpl. rewrite (H r) by now left. apply IH. intros r' Hin. apply H. now right.
Qed.

Lemma find_by_chat_id_app db1 db2 e :
  find_by_chat_id (db1 ++ db2)%list e =
  match find_by_chat_id db1 e with
  | Some x => Some x
  | None => find_by_chat_id db2 e
  end.
Proof.
  induction db1 as [|r db1 IH]; [reflexivity|].
  rewrite <- app_comm_cons, !find_by_chat_id_row in *.
  unfold select in *. simpl.
  destruct (claims_chat e r); [reflexivity|exact IH].
Qed.

(** The row of a known slug, with the rows before it and after it. *)
Lemma find_by_slug_split db s p :
  find_by_slug db s = Some p ->
  exists before r after,
    db = (before ++ r :: after)%list /\ row_slug r = s /\
    p = _row_to_project r.
Proof.
  unfold find_by_slug. intros Hp.
  destruct (fetchone _) as [r|] eqn:E; [|discriminate].
  injection Hp as <-.
  destruct (fetchone_select_Some _ _ _ E) as (before & after & -> & Hr & _).
  exists before, r, after. repeat split. now apply String.eqb_eq.
Qed.

Lemma wf_split_other_slugs before r after r' :
  wf_table (before ++ r :: after)%list ->
  In r' before \/ In r' after -> row_slug r' <> row_slug r.
Proof.
  unfold wf_table. rewrite map_app. simpl. intros Hwf Hin Heq.
  apply NoDup_remove_2 in Hwf. apply Hwf, in_or_app.
  rewrite <- Heq. destruct Hin as [Hin|Hin]; [left|right]; now apply in_map.
Qed.

(** ** Tables the repository can produce *)

Lemma active_is_flag_update db s set :
  (forall r, row_active (set r) = 0 \/ row_active (set r) = 1) ->
  active_is_flag db -> active_is_flag (update_where_slug s set db).
Proof.
  unfold active_is_flag, update_where_slug. intros Hset Hdb.
  apply Forall_map. apply Forall_impl with (2 := Hdb).
  intros r Hr. destruct (String.eqb (row_slug r) s); [apply Hset|exact Hr].
Qed.

Lemma apply_mutation_keeps_invariant db c :
  wf_table db /\ active_is_flag db ->
  wf_table (apply_mutation db c) /\ active_is_flag (apply_mutation db c).
Proof.
  intros [Hwf Hflag]. destruct c as [s e|s e|s e]; simpl.
  - split; [now apply wf_create_project|].
    unfold create_project. destruct (fetchone _); [exact Hflag|]. simpl.
    apply Forall_app. split; [exact Hflag|].
    constructor; [now right|constructor].
  - split; [now apply wf_bind_customer_chat|].
    unfold bind_customer_chat. destruct (find_by_slug db s); [|exact Hflag].
    simpl. apply active_is_flag_update; [|exact Hflag]. intros r. now right.
  - split; [now apply wf_unlink_chat|].
    unfold unlink_chat. destruct (find_by_slug db s); [|exact Hflag].
    simpl. apply active_is_flag_update; [|exact Hflag]. intros r. now left.
Qed.

(** X1: whatever sequence of create, bind and unlink calls is made on a
    fresh database, successful or not, the table never holds two rows with
    the same slug (so the [INSERT] of [create_project] never violates the
    primary key) and every [is_active] cell is 0 or 1. *)
Theorem reachable_tables_keep_invariant cs :
  wf_table (apply_mutations init_db cs) /\
  active_is_flag (apply_mutations init_db cs).
Proof.
  unfold apply_mutations.
  assert (Hinit : wf_table init_db /\ active_is_flag init_db)
    by (split; constructor).
  revert Hinit. generalize init_db. induction cs as [|c cs IH]; intros db Hdb.
  - exact Hdb.
  - simpl. apply IH. now apply apply_mutation_keeps_invariant.
Qed.

Lemma apply_mutation_slugs db c :
  exists more,
    map row_slug (apply_mutation db c) = (map row_slug db ++ more)%list.
Proof.
  destruct c as [s e|s e|s e]; simpl.
  - unfold create_project. destruct (fetchone _); simpl.
    + exists []. now rewrite app_nil_r.
    + exists [s]. now rewrite map_app.
  - unfold bind_customer_chat. destruct (find_by_slug db s); simpl.
    + exists []. rewrite app_nil_r. now apply update_where_slug_slugs.
    + exists []. now rewrite app_nil_r.
  - unfold unlink_chat. destruct (find_by_slug db s); simpl.
    + exists []. rewrite app_nil_r. now apply update_where_slug_slugs.
    + exists []. now rewrite app_nil_r.
Qed.

(** X2: no call ever deletes or renames a project.  After any sequence of
    create, bind and unlink calls the slugs of the table are the slugs it
    had before, in the same order, followed by those created since; a slug
    that could be looked up before can still be looked up. *)
Theorem slugs_are_never_removed db cs :
  (exists more,
     map row_slug (apply_mutations db cs) = (map row_slug db ++ more)%list) /\
  (forall s, find_by_slug db s <> None ->
             find_by_slug (apply_mutations db cs) s <> None).
Proof.
  assert (Hprefix : exists more,
            map row_slug (apply_mutations db cs) = (map row_slug db ++ more)%list).
  { unfold apply_mutations. revert db. induction cs as [|c cs IH]; intros db.
    - exists []. now rewrite app_nil_r.
    - simpl. destruct (IH (apply_mutation db c)) as [more2 H2].
      destruct (apply_mutation_slugs db c) as [more1 H1].
      exists (more1 ++ more2)%list. rewrite H2, H1. now rewrite app_assoc. }
  split; [exact Hprefix|].
  intros s Hknown Hgone. destruct Hprefix as [more Hmore].
  apply find_by_slug_None_not_in in Hgone. apply Hgone.
  rewrite Hmore. apply in_or_app. left.
  destruct (find_by_slug db s) as [p|] eqn:Hp; [|congruence].
  now apply find_by_slug_Some_in with (p := p).
Qed.

Lemma slugs_are_never_removed_witness :
  find_by_slug db_bound "proj1" <> None /\
  find_by_slug
    (apply_mutations db_bound
       [do_unlink_chat "proj1" 100; do_unlink_chat "proj1" 200;
        do_create_project "other" 100]) "proj1" <> None.
Proof.
  assert (H : find_by_slug db_bound "proj1" <> None) by discriminate.
  split; [exact H|].
  exact (proj2 (slugs_are_never_removed db_bound
                  [do_unlink_chat "proj1" 100; do_unlink_chat "proj1" 200;
                   do_create_project "other" 100]) "proj1" H).
Defined.

(** ** Creation and the other projects *)

Lemma create_project_other_slug db s e s' :
  s' <> s ->
  find_by_slug (snd (create_project db s e)) s' = find_by_slug db s'.
Proof.
  intros Hne. unfold create_project. destruct (fetchone _); simpl.
  - reflexivity.
  - rewrite find_by_slug_app, find_by_slug_cons. simpl.
    destruct (String.eqb s s') eqn:E.
    + apply String.eqb_eq in E. congruence.
    + destruct (find_by_slug db s'); reflexivity.
Qed.

(** X3: [create_project] makes no check on the endpoint and disturbs
    nothing that was there: whether it succeeds or raises, every other slug
    reads as before, and a chat that already resolved to a project keeps
    resolving to the same project and role, even when the new project
    names that chat as its executor side. *)
Theorem create_project_keeps_existing_lookups db s e :
  let db' := snd (create_project db s e) in
  (forall s', s' <> s -> find_by_slug db' s' = find_by_slug db s') /\
  (forall chat found,
     find_by_chat_id db chat = Some found ->
     find_by_chat_id db' chat = Some found).
Proof.
  unfold create_project. destruct (fetchone _); simpl.
  - split; auto.
  - split.
    + intros s' Hne. rewrite find_by_slug_app, find_by_slug_cons. simpl.
      destruct (String.eqb s s') eqn:E.
      * apply String.eqb_eq in E. congruence.
      * destruct (find_by_slug db s'); reflexivity.
    + intros chat found Hfound. rewrite find_by_chat_id_app, Hfound.
      reflexivity.
Qed.

Lemma create_project_keeps_existing_lookups_witness :
  let db' := snd (create_project db_bound "second" 100) in
  find_by_slug db' "proj1" = find_by_slug db_bound "proj1" /\
  find_by_chat_id db' 100 = Some (bound_project, "executor").
Proof.
  destruct (create_project_keeps_existing_lookups db_bound "second" 100)
    as [Hslug Hchat].
  split.
  - apply Hslug. discriminate.
  - apply Hchat. reflexivity.
Defined.

(** X4: a project created under an unknown slug in a chat that no project
    claims yet is found by that chat at once, with the role "executor". *)
Theorem create_project_then_find_by_chat_id db s e :
  find_by_slug db s = None ->
  find_by_chat_id db e = None ->
  find_by_chat_id (snd (create_project db s e)) e =
  Some (mkProject s None (Some e) true, "executor").
Proof.
  intros Hslug Hchat. rewrite create_project_unknown by exact Hslug. simpl.
  rewrite find_by_chat_id_app, Hchat, find_by_chat_id_row.
  unfold select, claims_chat. simpl. rewrite Z.eqb_refl. reflexivity.
Qed.

Lemma create_project_then_find_by_chat_id_witness :
  find_by_slug db_bound "second" = None /\
  find_by_chat_id db_bound 300 = None /\
  find_by_chat_id (snd (create_project db_bound "second" 300)) 300 =
  Some (mkProject "second" None (Some 300) true, "executor").
Proof.
  split; [reflexivity|]. split; [reflexivity|].
  apply (create_project_then_find_by_chat_id db_bound "second" 300);
    reflexivity.
Defined.

(** ** The two lookups agree *)

(** X5: under the primary-key constraint, the project that the lookup by
    chat returns is the project stored under its slug. *)
Theorem find_by_chat_id_agrees_with_find_by_slug db e p role :
  wf_table db ->
  find_by_chat_id db e = Some (p, role) ->
  find_by_slug db (slug p) = Some p.
Proof.
  intros Hwf Hfind. rewrite find_by_chat_id_row in Hfind.
  destruct (fetchone _) as [r|] eqn:E; [|discriminate].
  injection Hfind as <- _.
  destruct (fetchone_select_Some _ _ _ E) as (before & after & -> & _ & _).
  unfold find_by_slug.
  rewrite (fetchone_select_first _ before r after); [reflexivity| |].
  - simpl. apply String.eqb_refl.
  - intros r' Hin. apply String.eqb_neq.
    apply (wf_split_other_slugs before r after r' Hwf). now left.
Qed.

Lemma find_by_chat_id_agrees_with_find_by_slug_witness :
  find_by_slug db_bound (slug bound_project) = Some bound_project.
Proof.
  apply (find_by_chat_id_agrees_with_find_by_slug db_bound 200
           bound_project "customer").
  - apply wf_bind_customer_chat, wf_create_project, wf_init_db.
  - reflexivity.
Defined.

(** ** Binding and unlinking, seen from the chat *)

Lemma claimed_only_by_before before r after e :
  wf_table (before ++ r :: after)%list ->
  claimed_only_by (before ++ r :: after)%list e (row_slug r) ->
  forall r', In r' before \/ In r' after -> claims_chat e r' = false.
Proof.
  intros Hwf Honly r' Hin.
  destruct (claims_chat e r') eqn:E; [|reflexivity]. exfalso.
  apply (wf_split_other_slugs before r after r' Hwf Hin).
  apply Honly; [|exact E]. apply in_or_app.
  destruct Hin as [Hin|Hin]; [now left|right; now right].
Qed.

(** X6: when a chat is claimed by no other project, binding it as the
    customer side of a known project makes the lookup by that chat return
    the project, with the new binding, active, and with the role
    "customer" (also when the chat is the project's executor side). *)
Theorem bind_customer_chat_then_find_by_chat_id db s e p :
  wf_table db ->
  find_by_slug db s = Some p ->
  claimed_only_by db e s ->
  find_by_chat_id (snd (bind_customer_chat db s e)) e =
  Some (mkProject (slug p) (Some e) (executor_chat_id p) true, "customer").
Proof.
  intros Hwf Hp Honly.
  rewrite (bind_customer_chat_table _ _ e _ Hp). simpl.
  destruct (find_by_slug_split _ _ _ Hp) as (before & r & after & -> & <- & ->).
  rewrite update_where_slug_at by exact Hwf.
  rewrite find_by_chat_id_row.
  rewrite (fetchone_select_first (claims_chat e) before (bound_row e r) after).
  - simpl. rewrite Z.eqb_refl. reflexivity.
  - unfold claims_chat. simpl. rewrite Z.eqb_refl. reflexivity.
  - intros r' Hin.
    apply (claimed_only_by_before before r after e Hwf Honly). now left.
Qed.

Lemma bind_customer_chat_then_find_by_chat_id_witness :
  find_by_chat_id (snd (bind_customer_chat db_created "proj1" 100)) 100 =
  Some (mkProject "proj1" (Some 100) (Some 100) true, "customer").
Proof.
  apply (bind_customer_chat_then_find_by_chat_id db_created "proj1" 100
           (mkProject "proj1" None (Some 100) true)).
  - apply wf_create_project, wf_init_db.
  - reflexivity.
  - intros r [<-|[]] _. reflexivity.
Defined.

(** X7: when a chat is claimed by no other project, unlinking it from a
    known project leaves it bound nowhere: the lookup by that chat finds
    nothing, whichever side or sides of the project it was on. *)
Theorem unlink_chat_then_find_by_chat_id db s e p :
  wf_table db ->
  find_by_slug db s = Some p ->
  claimed_only_by db e s ->
  find_by_chat_id (snd (unlink_chat db s e)) e = None.
Proof.
  intros Hwf Hp Honly.
  rewrite (unlink_chat_table _ _ e _ Hp). simpl.
  destruct (find_by_slug_split _ _ _ Hp) as (before & r & after & -> & <- & ->).
  rewrite update_where_slug_at by exact Hwf.
  rewrite find_by_chat_id_row, fetchone_select_all_false; [reflexivity|].
  intros r' Hin. apply in_app_or in Hin. destruct Hin as [Hin|[<-|Hin]].
  - apply (claimed_only_by_before before r after e Hwf Honly). now left.
  - unfold claims_chat. simpl.
    destruct (row_customer r) as [c|], (row_executor r) as [x|]; simpl;
      repeat match goal with
             | |- context [e =? ?y] => destruct (Z.eqb_spec e y); simpl
             | |- context [?y =? e] => destruct (Z.eqb_spec y e); simpl
             end; congruence.
  - apply (claimed_only_by_before before r after e Hwf Honly). now right.
Qed.

Lemma unlink_chat_then_find_by_chat_id_witness :
  find_by_chat_id (snd (unlink_chat db_bound "proj1" 100)) 100 = None.
Proof.
  apply (unlink_chat_then_find_by_chat_id db_bound "proj1" 100 bound_project).
  - apply wf_bind_customer_chat, wf_create_project, wf_init_db.
  - reflexivity.
  - intros r [<-|[]] _. reflexivity.
Defined.

(** ** Unlinking in general *)

(** X8: [unlink_chat] raises the project-not-found error exactly when the
    slug is unknown, and then leaves the table alone.  On a known slug it
    succeeds: each side of the project that holds the given chat is
    cleared (both, when both hold it), a side that holds another chat or
    none is kept, the project is inactive, the slug is kept, the returned
    project is what the slug reads afterwards, and every other project is
    as before. *)
Theorem unlink_chat_spec db s e :
  match find_by_slug db s with
  | None => unlink_chat db s e = (Raise ProjectNotFound, db)
  | Some p =>
      exists q db',
        unlink_chat db s e = (Ok q, db') /\
        find_by_slug db' s = Some q /\
        slug q = slug p /\
        is_active q = false /\
        customer_chat_id q =
          (if option_eq_dec_Z (customer_chat_id p) (Some e) then None
           else customer_chat_id p) /\
        executor_chat_id q =
          (if option_eq_dec_Z (executor_chat_id p) (Some e) then None
           else executor_chat_id p) /\
        (forall s', s' <> s -> find_by_slug db' s' = find_by_slug db s')
  end.
Proof.
  destruct (find_by_slug db s) as [p|] eqn:Hp.
  - pose proof (unlink_chat_table db s e p Hp) as Hun. simpl in Hun.
    eexists _, _. split; [exact Hun|].
    split; [now apply find_by_slug_unlinked|].
    split; [reflexivity|]. split; [reflexivity|]. simpl.
    split; [|split].
    + destruct (option_eq_dec_Z (customer_chat_id p) (Some e)) as [H|H].
      * apply py_eq_true in H. now rewrite H.
      * destruct (py_eq e (customer_chat_id p)) eqn:E; [|reflexivity].
        apply py_eq_true in E. contradiction.
    + destruct (option_eq_dec_Z (executor_chat_id p) (Some e)) as [H|H].
      * apply py_eq_true in H. now rewrite H.
      * destruct (py_eq e (executor_chat_id p)) eqn:E; [|reflexivity].
        apply py_eq_true in E. contradiction.
    + intros s' Hne. now apply find_by_slug_update_other.
  - unfold unlink_chat. rewrite Hp. reflexivity.
Qed.

Lemma unlink_chat_spec_witness :
  unlink_chat init_db "proj1" 100 = (Raise ProjectNotFound, init_db) /\
  exists q db',
    unlink_chat [mkRow "proj1" (Some 100) (Some 100) 1] "proj1" 100 =
      (Ok q, db') /\
    find_by_slug db' "proj1" = Some q /\
    slug q = "proj1" /\ is_active q = false /\
    customer_chat_id q = None /\ executor_chat_id q = None /\
    (forall s', s' <> "proj1" ->
       find_by_slug db' s' =
       find_by_slug [mkRow "proj1" (Some 100) (Some 100) 1] s').
Proof.
  split.
  - exact (unlink_chat_spec init_db "proj1" 100).
  - exact (unlink_chat_spec [mkRow "proj1" (Some 100) (Some 100) 1] "proj1" 100).
Defined.

(** ** How unlinking and binding compose *)

(** X9: unlinking the customer chat of a project and binding the same chat
    again gives the project back with both endpoints as they were, and
    active; every other project is untouched. *)
Theorem unlink_then_bind_customer_restores db s e p :
  find_by_slug db s = Some p ->
  customer_chat_id p = Some e ->
  executor_chat_id p <> Some e ->
  let db1 := snd (unlink_chat db s e) in
  let db2 := snd (bind_customer_chat db1 s e) in
  find_by_slug db1 s = Some (mkProject (slug p) None (executor_chat_id p) false) /\
  find_by_slug db2 s = Some (mkProject (slug p) (Some e) (executor_chat_id p) true) /\
  (forall s', s' <> s -> find_by_slug db2 s' = find_by_slug db s').
Proof.
  intros Hp Hc Hx db1 db2.
  assert (H1 : find_by_slug db1 s =
               Some (mkProject (slug p) None (executor_chat_id p) false)).
  { unfold db1. rewrite (unlink_chat_table _ _ e _ Hp). simpl.
    rewrite (find_by_slug_unlinked _ _ p _ _ Hp). rewrite Hc. simpl.
    rewrite Z.eqb_refl.
    destruct (py_eq e (executor_chat_id p)) eqn:E; [|reflexivity].
    apply py_eq_true in E. contradiction. }
  split; [exact H1|]. split.
  - unfold db2. rewrite (bind_customer_chat_table _ _ e _ H1). simpl.
    now rewrite (find_by_slug_bound _ _ e _ H1).
  - intros s' Hne. unfold db2.
    rewrite (bind_customer_chat_table _ _ e _ H1). simpl.
    rewrite find_by_slug_update_other by (reflexivity || exact Hne).
    unfold db1. rewrite (unlink_chat_table _ _ e _ Hp). simpl.
    now apply find_by_slug_update_other.
Qed.

Lemma unlink_then_bind_customer_restores_witness :
  let db1 := snd (unlink_chat db_bound "proj1" 200) in
  let db2 := snd (bind_customer_chat db1 "proj1" 200) in
  find_by_slug db1 "proj1" = Some (mkProject "proj1" None (Some 100) false) /\
  find_by_slug db2 "proj1" = Some bound_project /\
  (forall s', s' <> "proj1" -> find_by_slug db2 s' = find_by_slug db_bound s').
Proof.
  apply (unlink_then_bind_customer_restores db_bound "proj1" 200 bound_project);
    [reflexivity|reflexivity|discriminate].
Defined.

Lemma executor_cleared_step db c s p :
  find_by_slug db s = Some p -> executor_chat_id p = None ->
  exists q,
    find_by_slug (apply_mutation db c) s = Some q /\ executor_chat_id q = None.
Proof.
  intros Hp Hx. destruct c as [s' e|s' e|s' e]; simpl.
  - destruct (string_dec s' s) as [->|Hne].
    + rewrite (create_project_known _ _ e _ Hp). simpl. eauto.
    + rewrite (create_project_other_slug db s' e s) by congruence. eauto.
  - destruct (find_by_slug db s') as [p'|] eqn:Hp'.
    + rewrite (bind_customer_chat_table _ _ e _ Hp'). simpl.
      destruct (string_dec s' s) as [->|Hne].
      * rewrite (find_by_slug_bound _ _ e _ Hp). eauto.
      * rewrite find_by_slug_update_other by (reflexivity || congruence). eauto.
    + unfold bind_customer_chat. rewrite Hp'. simpl. eauto.
  - destruct (find_by_slug db s') as [p'|] eqn:Hp'.
    + rewrite (unlink_chat_table _ _ e _ Hp'). simpl.
      destruct (string_dec s' s) as [->|Hne].
      * rewrite (find_by_slug_unlinked _ _ p _ _ Hp).
        assert (p' = p) by congruence. subst p'.
        eexists. split; [reflexivity|]. simpl. rewrite Hx. reflexivity.
      * rewrite find_by_slug_update_other by (reflexivity || congruence). eauto.
    + unfold unlink_chat. rewrite Hp'. simpl. eauto.
Qed.

(** X10: the repository has no way to set an executor endpoint again.
    Once a project's executor side is cleared it stays cleared through
    every later sequence of create, bind and unlink calls. *)
Theorem cleared_executor_stays_cleared db cs s p :
  find_by_slug db s = Some p ->
  executor_chat_id p = None ->
  exists q,
    find_by_slug (apply_mutations db cs) s = Some q /\
    executor_chat_id q = None.
Proof.
  unfold apply_mutations. revert db p.
  induction cs as [|c cs IH]; intros db p Hp Hx.
  - exists p. split; assumption.
  - simpl. destruct (executor_cleared_step db c s p Hp Hx) as (q & Hq & Hqx).
    exact (IH _ q Hq Hqx).
Qed.

Lemma cleared_executor_stays_cleared_witness :
  exists q,
    find_by_slug
      (apply_mutations db_unlinked
         [do_create_project "proj1" 100; do_bind_customer_chat "proj1" 100;
          do_unlink_chat "proj1" 300]) "proj1" = Some q /\
    executor_chat_id q = None.
Proof.
  apply (cleared_executor_stays_cleared db_unlinked
           [do_create_project "proj1" 100; do_bind_customer_chat "proj1" 100;
            do_unlink_chat "proj1" 300]
           "proj1" (mkProject "proj1" (Some 200) None false));
    reflexivity.
Defined.

(** ** Listing *)

Lemma select_all db : select (fun _ => true) db = db.
Proof.
  unfold select. induction db as [|r db IH]; simpl; [reflexivity|].
  now rewrite IH.
Qed.

Lemma insert_by_slug_HdRel a r rows :
  slug_le (_row_to_project a) (_row_to_project r) ->
  HdRel slug_le (_row_to_project a) (map _row_to_project rows) ->
  HdRel slug_le (_row_to_project a)
    (map _row_to_project (insert_by_slug r rows)).
Proof.
  intros Har Hrows. destruct rows as [|r' rows]; simpl.
  - now constructor.
  - destruct (String.leb (row_slug r) (row_slug r')); simpl.
    + now constructor.
    + inversion Hrows; subst. now constructor.
Qed.

Lemma insert_by_slug_sorted r rows :
  Sorted slug_le (map _row_to_project rows) ->
  Sorted slug_le (map _row_to_project (insert_by_slug r rows)).
Proof.
  induction rows as [|r' rows IH]; simpl; intros Hs.
  - repeat constructor.
  - destruct (String.leb (row_slug r) (row_slug r')) eqn:E; simpl.
    + constructor; [exact Hs|]. constructor. exact E.
    + inversion Hs as [|? ? Hs' Hhd]; subst.
      constructor; [now apply IH|].
      apply insert_by_slug_HdRel; [|exact Hhd].
      unfold slug_le. simpl.
      destruct (String.leb_total (row_slug r) (row_slug r')); congruence.
Qed.

(** X11: [list_projects] returns every project of the table exactly once
    (a rearrangement of the rows, each read as a project), in ascending
    byte order of the slugs. *)
Theorem list_projects_sorted_and_complete db :
  Sorted slug_le (list_projects db) /\
  Permutation (list_projects db) (map _row_to_project db).
Proof.
  unfold list_projects. rewrite select_all. split.
  - induction db as [|r db IH]; simpl; [constructor|].
    now apply insert_by_slug_sorted.
  - apply Permutation_map, order_by_slug_perm.
Qed.

(** * Further properties of the relay *)

Ltac handler_unfold :=
  unfold calls, run, relay_message, project_info_handler,
    list_projects_handler, help_handler, ensure_admin, reply,
    effective_chat_id, try_except, bind, on_repo, api, record, ret, raise;
  cbn [table history fst snd].

Ltac api_outcomes tg :=
  repeat match goal with
         | |- context [tg ?h ?c] =>
             destruct (tg h c) eqn:?;
             cbn [table history fst snd app negb is_TelegramError] in *
         end.

(** Every path through [relay_message], down to what the API answers. *)
Ltac relay_step tg :=
  match goal with
  | |- context [effective_message ?u] =>
      destruct (effective_message u) as [?m|] eqn:?Hmessage
  | |- context [from_user ?m] =>
      destruct (from_user m) as [[? [|]]|] eqn:?Hsender
  | |- context [find_by_chat_id ?db ?c] =>
      destruct (find_by_chat_id db c) as [[?p ?role]|] eqn:?Hfound
  | |- context [String.eqb ?r "executor"] =>
      destruct (String.eqb r "executor") eqn:?Hrole
  | |- context [match customer_chat_id ?p with _ => _ end] =>
      destruct (customer_chat_id p) as [?t|] eqn:?Htarget
  | |- context [match executor_chat_id ?p with _ => _ end] =>
      destruct (executor_chat_id p) as [?t|] eqn:?Htarget
  | |- context [py_bool ?t] => destruct (py_bool t) eqn:?Hzero
  | |- context [if_str (text ?m)] => destruct (if_str (text m)) eqn:?Htext
  | |- context [document ?m] => destruct (document m) eqn:?Hdocument
  | |- context [photo ?m] => destruct (photo m) eqn:?Hphoto
  | |- context [voice ?m] => destruct (voice m) eqn:?Hvoice
  | |- context [audio ?m] => destruct (audio m) eqn:?Haudio
  | |- context [video ?m] => destruct (video m) eqn:?Hvideo
  | |- context [tg ?h ?c] => destruct (tg h c) eqn:?Hraises
  end;
  cbn [table history fst snd app negb is_bot is_TelegramError] in *.

Ltac relay_paths tg := handler_unfold; repeat relay_step tg.

(** X12: relaying a message, answering project_info, listing the projects
    and showing the help never write to the table, whatever the update and
    whatever the Telegram API does; and the only repository method a relay
    calls is the lookup by chat, at most once. *)
Theorem read_only_handlers tg config u args db :
  table (snd (run (relay_message tg u) db)) = db /\
  table (snd (run (project_info_handler tg u args) db)) = db /\
  table (snd (run (list_projects_handler tg u args config) db)) = db /\
  table (snd (run (help_handler tg u args) db)) = db /\
  (filter is_repo_call (calls (relay_message tg u) db) = [] \/
   exists chat,
     filter is_repo_call (calls (relay_message tg u) db) =
     [repo_find_by_chat_id chat]).
Proof.
  split; [|split; [|split; [|split]]].
  - relay_paths tg; reflexivity.
  - handler_unfold. destruct (effective_chat u) as [chat|]; [|reflexivity].
    cbn [table history fst snd].
    destruct (find_by_chat_id db chat) as [[p role]|];
      destruct (effective_message u) as [m|];
      cbn [table history fst snd]; api_outcomes tg; reflexivity.
  - handler_unfold. destruct (is_admin u config);
      destruct (effective_message u) as [m|];
      cbn [table history fst snd negb]; api_outcomes tg;
      try reflexivity;
      destruct (list_projects db); cbn [table history fst snd];
      api_outcomes tg; reflexivity.
  - handler_unfold. destruct (effective_message u) as [m|];
      cbn [table history fst snd]; api_outcomes tg; reflexivity.
  - relay_paths tg;
      first [left; reflexivity | right; eexists; reflexivity].
Qed.

(** X13: the relay stays silent (no call on the Telegram API at all)
    exactly when the update carries no message, or the message was sent by
    a bot, or its chat is bound to no project; in every other case the
    sender's chat or the counterpart hears from the bot. *)
Theorem relay_message_silent_iff tg u db :
  existsb is_telegram_call (calls (relay_message tg u) db) = false <->
  match effective_message u with
  | None => True
  | Some m => from_bot m = true \/ find_by_chat_id db (chat_id m) = None
  end.
Proof.
  unfold from_bot. relay_paths tg;
    (split; intros H;
     first [ reflexivity | discriminate | exact I
           | left; reflexivity | right; reflexivity
           | destruct H; discriminate ]).
Qed.

(** X14: a failed delivery never escapes the relay.  As long as the
    Telegram API accepts the bot's replies, [relay_message] returns
    normally for every update and every table, whatever happens to the
    forwarding calls. *)
Theorem relay_message_contains_delivery_failures tg u db :
  replies_succeed tg ->
  fst (run (relay_message tg u) db) = Ok tt.
Proof.
  intros Hreplies. relay_paths tg; try reflexivity;
    match goal with
    | H : tg ?h (reply_text ?c ?b) = true |- _ =>
        rewrite Hreplies in H; discriminate
    end.
Qed.

Lemma relay_message_contains_delivery_failures_witness :
  fst (run (relay_message
              (fun _ c => match forward_destination c with
                          | Some _ => true
                          | None => false
                          end)
              (update_of None (text_message 100 "hi"))) db_bound) = Ok tt.
Proof.
  apply relay_message_contains_delivery_failures.
  intros h chat body. reflexivity.
Defined.





(** ** Labels *)

Lemma append_cancel_l (a x y : string) : a ++ x = a ++ y -> x = y.
Proof.
  induction a as [|ch a IH]; simpl; [auto|].
  intros [= H]. now apply IH.
Qed.

Lemma append_empty_r (a : string) : a ++ "" = a.
Proof. induction a as [|ch a IH]; simpl; [reflexivity|now rewrite IH]. Qed.

Lemma append_line_not_bare (a c : string) : a ++ LF ++ c <> a.
Proof.
  intros H. rewrite <- (append_empty_r a) in H at 2.
  apply append_cancel_l in H. discriminate.
Qed.

(** X17: attaching the role label loses nothing of the caption.  The
    result of [build_media_caption] always starts with the role's label,
    and two captions that give the same result are the same caption (a
    missing caption and an empty one count as the same). *)
Theorem build_media_caption_keeps_caption role c1 c2 :
  (exists rest, build_media_caption role c1 = caption_for_role role ++ rest) /\
  (build_media_caption role c1 = build_media_caption role c2 ->
   if_str c1 = if_str c2).
Proof.
  unfold build_media_caption. split.
  - destruct (if_str c1) as [c|].
    + exists (LF ++ c). reflexivity.
    + exists "". now rewrite append_empty_r.
  - destruct (if_str c1) as [a1|], (if_str c2) as [a2|]; intros H.
    + apply append_cancel_l, append_cancel_l in H. now subst.
    + now apply append_line_not_bare in H.
    + symmetry in H. now apply append_line_not_bare in H.
    + reflexivity.
Qed.

Lemma build_media_caption_keeps_caption_witness :
  (exists rest,
     build_media_caption "executor" (Some "hello") =
     caption_for_role "executor" ++ rest) /\
  if_str (Some "") = if_str None.
Proof.
  destruct (build_media_caption_keeps_caption "executor" (Some "") None)
    as [_ Hsame].
  split.
  - exact (proj1 (build_media_caption_keeps_caption "executor"
                    (Some "hello") None)).
  - apply Hsame. reflexivity.
Defined.

(** * Further properties of the command surface *)

Ltac admin_handler_start Hadmin Hm Hchat :=
  unfold calls, run, create_project_handler, bind_customer_handler,
    unlink_project_handler, ensure_admin;
  rewrite Hadmin;
  unfold bind, ret, try_except, on_repo, reply, effective_chat_id;
  try rewrite Hchat; rewrite ?Hm; unfold ret;
  cbn [table history fst snd negb app].

(** X18: for the administrator, [/create_project s ...] in a chat creates
    the project with that chat as executor side and confirms it when the
    slug is new, and otherwise answers with the error text and leaves the
    table alone.  Arguments after the first are ignored, and the
    [ValueError] of the repository never escapes. *)
Theorem create_project_handler_for_admin tg config u m chat s rest db :
  is_admin u config = true ->
  effective_message u = Some m ->
  effective_chat u = Some chat ->
  let h := create_project_handler tg u (s :: rest) config in
  match find_by_slug db s with
  | None =>
      find_by_slug (table (snd (run h db))) s =
        Some (mkProject s None (Some chat) true) /\
      calls h db =
        [repo_create_project s chat;
         reply_text (chat_id m)
           ("Проект " ++ s
            ++ " создан. Теперь зайдите в чат с заказчиками и выполните /bind_customer "
            ++ s ++ ".")]
  | Some _ =>
      table (snd (run h db)) = db /\
      calls h db =
        [repo_create_project s chat;
         reply_text (chat_id m) "Project already exists"]
  end.
Proof.
  intros Hadmin Hm Hchat h. unfold h.
  destruct (find_by_slug db s) as [p|] eqn:Hp.
  - admin_handler_start Hadmin Hm Hchat.
    rewrite (create_project_known _ _ chat _ Hp).
    cbn [table history fst snd app is_ValueError]. unfold bind, api, ret.
    cbn [table history fst snd app str_exn DuplicateSlug].
    destruct (tg _ _); split; reflexivity.
  - admin_handler_start Hadmin Hm Hchat.
    rewrite (create_project_unknown _ _ chat Hp).
    cbn [table history fst snd app]. unfold api.
    cbn [table history fst snd app].
    destruct (tg _ _); cbn [table history fst snd];
      (split; [now apply find_by_slug_created|reflexivity]).
Qed.

Lemma create_project_handler_for_admin_witness :
  let config := mkConfig "token" 1 "projects.db" in
  let u := update_of (Some (mkUser 1 false)) (text_message 100 "/create_project proj1") in
  let h := create_project_handler reliable u ["proj1"] config in
  table (snd (run h db_bound)) = db_bound /\
  calls h db_bound =
    [repo_create_project "proj1" 100; reply_text 100 "Project already exists"].
Proof.
  apply (create_project_handler_for_admin reliable
           (mkConfig "token" 1 "projects.db")
           (update_of (Some (mkUser 1 false))
              (text_message 100 "/create_project proj1"))
           (text_message 100 "/create_project proj1") 100 "proj1" []
           db_bound); reflexivity.
Defined.

(** X19: for the administrator, [/bind_customer s] in a chat binds that
    chat as the customer side of the project and confirms it when the slug
    is known, and otherwise answers "Project not found" and leaves the
    table alone. *)
Theorem bind_customer_handler_for_admin tg config u m chat s rest db :
  is_admin u config = true ->
  effective_message u = Some m ->
  effective_chat u = Some chat ->
  let h := bind_customer_handler tg u (s :: rest) config in
  match find_by_slug db s with
  | None =>
      table (snd (run h db)) = db /\
      calls h db =
        [repo_bind_customer_chat s chat;
         reply_text (chat_id m) "Project not found"]
  | Some p =>
      find_by_slug (table (snd (run h db))) s =
        Some (mkProject (slug p) (Some chat) (executor_chat_id p) true) /\
      calls h db =
        [repo_bind_customer_chat s chat;
         reply_text (chat_id m)
           ("Проект " ++ slug p ++ ": чат заказчика успешно привязан.")]
  end.
Proof.
  intros Hadmin Hm Hchat h. unfold h.
  destruct (find_by_slug db s) as [p|] eqn:Hp.
  - admin_handler_start Hadmin Hm Hchat.
    rewrite (bind_customer_chat_table _ _ chat _ Hp).
    cbn [table history fst snd app]. unfold api.
    cbn [table history fst snd app].
    destruct (tg _ _); cbn [table history fst snd];
      (split; [now apply find_by_slug_bound|reflexivity]).
  - admin_handler_start Hadmin Hm Hchat.
    unfold bind_customer_chat. rewrite Hp.
    cbn [table history fst snd app is_ValueError]. unfold bind, api, ret.
    cbn [table history fst snd app str_exn ProjectNotFound].
    destruct (tg _ _); split; reflexivity.
Qed.

Lemma bind_customer_handler_for_admin_witness :
  let config := mkConfig "token" 1 "projects.db" in
  let u := update_of (Some (mkUser 1 false)) (text_message 200 "/bind_customer proj1") in
  let h := bind_customer_handler reliable u ["proj1"] config in
  find_by_slug (table (snd (run h db_created))) "proj1" = Some bound_project /\
  calls h db_created =
    [repo_bind_customer_chat "proj1" 200;
     reply_text 200 ("Проект " ++ "proj1" ++ ": чат заказчика успешно привязан.")].
Proof.
  apply (bind_customer_handler_for_admin reliable
           (mkConfig "token" 1 "projects.db")
           (update_of (Some (mkUser 1 false))
              (text_message 200 "/bind_customer proj1"))
           (text_message 200 "/bind_customer proj1") 200 "proj1" []
           db_created); reflexivity.
Defined.

(** X20: for the administrator, [/unlink_project s] in a chat clears the
    sides of the project that hold that chat, deactivates the project and
    confirms it when the slug is known (also when the chat is on neither
    side), and otherwise answers "Project not found" and leaves the table
    alone. *)
Theorem unlink_project_handler_for_admin tg config u m chat s rest db :
  is_admin u config = true ->
  effective_message u = Some m ->
  effective_chat u = Some chat ->
  let h := unlink_project_handler tg u (s :: rest) config in
  match find_by_slug db s with
  | None =>
      table (snd (run h db)) = db /\
      calls h db =
        [repo_unlink_chat s chat; reply_text (chat_id m) "Project not found"]
  | Some p =>
      find_by_slug (table (snd (run h db))) s =
        Some (mkProject (slug p)
                (if py_eq chat (customer_chat_id p) then None
                 else customer_chat_id p)
                (if py_eq chat (executor_chat_id p) then None
                 else executor_chat_id p)
                false) /\
      calls h db =
        [repo_unlink_chat s chat;
         reply_text (chat_id m)
           ("Проект " ++ slug p ++ ": чат отвязан, проект деактивирован.")]
  end.
Proof.
  intros Hadmin Hm Hchat h. unfold h.
  destruct (find_by_slug db s) as [p|] eqn:Hp.
  - admin_handler_start Hadmin Hm Hchat.
    rewrite (unlink_chat_table _ _ chat _ Hp).
    cbn [table history fst snd app]. unfold api.
    cbn [table history fst snd app].
    destruct (tg _ _); cbn [table history fst snd];
      (split; [now apply find_by_slug_unlinked|reflexivity]).
  - admin_handler_start Hadmin Hm Hchat.
    unfold unlink_chat. rewrite Hp.
    cbn [table history fst snd app is_ValueError]. unfold bind, api, ret.
    cbn [table history fst snd app str_exn ProjectNotFound].
    destruct (tg _ _); split; reflexivity.
Qed.

Lemma unlink_project_handler_for_admin_witness :
  let config := mkConfig "token" 1 "projects.db" in
  let u := update_of (Some (mkUser 1 false)) (text_message 300 "/unlink_project proj1") in
  let h := unlink_project_handler reliable u ["proj1"] config in
  find_by_slug (table (snd (run h db_bound))) "proj1" =
    Some (mkProject "proj1" (Some 200) (Some 100) false) /\
  calls h db_bound =
    [repo_unlink_chat "proj1" 300;
     reply_text 300 ("Проект " ++ "proj1" ++ ": чат отвязан, проект деактивирован.")].
Proof.
  apply (unlink_project_handler_for_admin reliable
           (mkConfig "token" 1 "projects.db")
           (update_of (Some (mkUser 1 false))
              (text_message 300 "/unlink_project proj1"))
           (text_message 300 "/unlink_project proj1") 300 "proj1" []
           db_bound); reflexivity.
Defined.

(** X21: for the administrator, each of the three commands that take a
    slug answers a call without arguments with its usage line; it calls no
    repository method and leaves the table alone. *)
Theorem slug_commands_without_argument tg config u m db :
  is_admin u config = true ->
  effective_message u = Some m ->
  (table (snd (run (create_project_handler tg u [] config) db)) = db /\
   calls (create_project_handler tg u [] config) db =
     [reply_text (chat_id m) "Использование: /create_project <slug>"]) /\
  (table (snd (run (bind_customer_handler tg u [] config) db)) = db /\
   calls (bind_customer_handler tg u [] config) db =
     [reply_text (chat_id m) "Использование: /bind_customer <slug>"]) /\
  (table (snd (run (unlink_project_handler tg u [] config) db)) = db /\
   calls (unlink_project_handler tg u [] config) db =
     [reply_text (chat_id m) "Использование: /unlink_project <slug>"]).
Proof.
  intros Hadmin Hm.
  repeat split;
    admin_handler_start Hadmin Hm Hm; unfold api;
    cbn [table history fst snd app]; destruct (tg _ _); reflexivity.
Qed.

Lemma slug_commands_without_argument_witness :
  let config := mkConfig "token" 1 "projects.db" in
  let u := update_of (Some (mkUser 1 false)) (text_message 100 "/bind_customer") in
  table (snd (run (bind_customer_handler reliable u [] config) db_bound)) = db_bound /\
  calls (bind_customer_handler reliable u [] config) db_bound =
    [reply_text 100 "Использование: /bind_customer <slug>"].
Proof.
  exact (proj1 (proj2
    (slug_commands_without_argument reliable
       (mkConfig "token" 1 "projects.db")
       (update_of (Some (mkUser 1 false)) (text_message 100 "/bind_customer"))
       (text_message 100 "/bind_customer") db_bound eq_refl eq_refl))).
Defined.

(** * Configuration *)

(** X22: [load_config] succeeds exactly when BOT_TOKEN is set and
    non-empty and ADMIN_USER_ID, when set and non-empty, is an integer.
    The configuration then carries the token as given; the administrator
    is the parsed ADMIN_USER_ID, or 205386594 when that variable is unset
    or empty; the database path is DB_PATH as given, an empty string
    included, and "projects.db" only when DB_PATH is unset.  The two
    failures are told apart by their message. *)
Theorem load_config_outcomes getenv py_int :
  (forall cfg,
     load_config getenv py_int = Ok cfg ->
     getenv "BOT_TOKEN" = Some (bot_token cfg) /\
     nonempty (bot_token cfg) = true /\
     match if_str (getenv "ADMIN_USER_ID") with
     | Some raw => py_int raw = Some (admin_user_id cfg)
     | None => admin_user_id cfg = 205386594
     end /\
     db_path cfg =
       match getenv "DB_PATH" with
       | Some path => path
       | None => "projects.db"
       end) /\
  (forall e,
     load_config getenv py_int = Raise e ->
     (e = ValueError "BOT_TOKEN is required" /\
      if_str (getenv "BOT_TOKEN") = None) \/
     (e = ValueError "ADMIN_USER_ID must be an integer" /\
      if_str (getenv "BOT_TOKEN") <> None /\
      exists raw,
        if_str (getenv "ADMIN_USER_ID") = Some raw /\ py_int raw = None)).
Proof.
  unfold load_config. split.
  - intros cfg.
    destruct (getenv "BOT_TOKEN") as [token|] eqn:Htoken; simpl;
      [|discriminate].
    destruct (nonempty token) eqn:Hne; [|discriminate].
    destruct (if_str (getenv "ADMIN_USER_ID")) as [raw|].
    + destruct (py_int raw) as [n|]; [|discriminate].
      intros [= <-]. simpl. auto.
    + intros [= <-]. simpl. auto.
  - intros e.
    destruct (if_str (getenv "BOT_TOKEN")) as [token|].
    + destruct (if_str (getenv "ADMIN_USER_ID")) as [raw|];
        [|discriminate].
      destruct (py_int raw) as [n|] eqn:Hraw; [discriminate|].
      intros [= <-]. right. split; [reflexivity|].
      split; [discriminate|]. exists raw. auto.
    + intros [= <-]. left. auto.
Qed.

Lemma load_config_outcomes_witness :
  let getenv := fun name =>
    if String.eqb name "BOT_TOKEN" then Some "secret"
    else if String.eqb name "ADMIN_USER_ID" then Some ""
    else if String.eqb name "DB_PATH" then Some ""
    else None in
  let py_int := fun _ : string => @None Z in
  load_config getenv py_int = Ok (mkConfig "secret" 205386594 "") /\
  admin_user_id (mkConfig "secret" 205386594 "") = 205386594 /\
  db_path (mkConfig "secret" 205386594 "") = "".
Proof.
  intros getenv py_int.
  assert (Hok : load_config getenv py_int = Ok (mkConfig "secret" 205386594 ""))
    by reflexivity.
  split; [exact Hok|].
  destruct (proj1 (load_config_outcomes getenv py_int) _ Hok)
    as (_ & _ & Hadmin & Hpath).
  split; [exact Hadmin|exact Hpath].
Defined.

(** * What the relay delivers, and where *)

(** X23: the relay never delivers a message twice and never delivers it
    anywhere but to the counterpart.  For every update, table and
    behaviour of the Telegram API it makes at most one forwarding call, and
    the chat of that call is the non-zero endpoint stored on the side
    opposite to the role under which the lookup found the sender's chat;
    the message it forwards was not sent by a bot. *)
Theorem relay_message_delivers_only_to_counterpart tg u db :
  (length (filter is_forward (calls (relay_message tg u) db)) <= 1)%nat /\
  (forall c t,
     In c (calls (relay_message tg u) db) ->
     forward_destination c = Some t ->
     match effective_message u with
     | None => False
     | Some m =>
         from_bot m = false /\
         exists p role,
           find_by_chat_id db (chat_id m) = Some (p, role) /\
           (if String.eqb role "executor" then customer_chat_id p
            else executor_chat_id p) = Some t /\
           t <> 0
     end).
Proof.
  split.
  - relay_paths tg; cbn; lia.
  - intros c t. unfold from_bot. relay_paths tg;
      intros Hin Hdest; cbn in Hin;
      repeat match goal with
             | H : _ \/ _ |- _ => destruct H as [H|H]
             | H : False |- _ => destruct H
             end;
      subst c; cbn in Hdest; try discriminate;
      injection Hdest as <-;
      (split; [reflexivity|]);
      eexists _, _; (split; [reflexivity|]);
      match goal with
      | H : String.eqb _ _ = _ |- _ => rewrite H
      end;
      (split; [assumption|]);
      match goal with
      | H : py_bool ?t = true |- _ =>
          unfold py_bool in H; destruct (Z.eqb_spec t 0);
          [discriminate|assumption]
      end.
Qed.

Lemma relay_message_delivers_only_to_counterpart_witness :
  from_bot (text_message 100 "hi") = false /\
  exists p role,
    find_by_chat_id db_bound 100 = Some (p, role) /\
    (if String.eqb role "executor" then customer_chat_id p
     else executor_chat_id p) = Some 200 /\
    200 <> 0.
Proof.
  apply (proj2 (relay_message_delivers_only_to_counterpart reliable
                  (update_of None (text_message 100 "hi")) db_bound)
           (send_message 200 (prefix_for_role "executor" ++ "hi")) 200).
  - right. left. reflexivity.
  - reflexivity.
Defined.

(** * Lookup by slug *)

(** X24: under the primary-key constraint, [find_by_slug] returns a
    project exactly when the table holds a row with exactly that slug (a
    byte-for-byte match), and the project is that row as it stands: its
    slug is the one asked for. *)
Theorem find_by_slug_iff_row db s p :
  wf_table db ->
  (find_by_slug db s = Some p <->
   exists r, In r db /\ row_slug r = s /\ p = _row_to_project r) /\
  (find_by_slug db s = Some p -> slug p = s).
Proof.
  intros Hwf. split; [split|].
  - intros Hp.
    destruct (find_by_slug_split _ _ _ Hp) as (before & r & after & -> & Hs & ->).
    exists r. split; [|auto]. apply in_or_app. right. now left.
  - intros (r & Hin & Hs & ->).
    apply in_split in Hin. destruct Hin as (before & after & ->).
    unfold find_by_slug.
    rewrite (fetchone_select_first _ before r after); [reflexivity| |].
    + now apply String.eqb_eq.
    + intros r' Hin. apply String.eqb_neq. rewrite <- Hs.
      apply (wf_split_other_slugs before r after r' Hwf). now left.
  - apply find_by_slug_slug.
Qed.

Lemma find_by_slug_iff_row_witness :
  (find_by_slug db_bound "proj1" = Some bound_project <->
   exists r, In r db_bound /\ row_slug r = "proj1" /\
             bound_project = _row_to_project r) /\
  (find_by_slug db_bound "proj1" = Some bound_project ->
   slug bound_project = "proj1").
Proof.
  apply (find_by_slug_iff_row db_bound "proj1" bound_project).
  apply wf_bind_customer_chat, wf_create_project, wf_init_db.
Defined.
